(** * Dangling Container Checker: the reconciliation pass of [main.go]

    A shallow embedding of the functions of [main.go] that fetch the two
    inventories, compare them and act on the orphans, with the properties
    of the specification stated over that embedding.

    Go strings are byte sequences: they are modelled by [string] (a list
    of 8-bit [ascii] characters).  Slices are modelled by [list]; a nil
    slice and an empty slice are both [nil], as [range] and [len] do not
    distinguish them. *)

From Stdlib Require Import String Ascii List ZArith Lia Bool.
Import ListNotations.
Local Open Scope list_scope.
Local Open Scope string_scope.

Set Implicit Arguments.

(** ** The functions of package [strings] used by the program *)

Module strings.

(** [strings.HasPrefix(s, prefix)]. *)
Fixpoint HasPrefix (s prefix : string) {struct prefix} : bool :=
  match prefix, s with
  | EmptyString, _ => true
  | String _ _, EmptyString => false
  | String a prefix', String b s' =>
      if Ascii.eqb a b then HasPrefix s' prefix' else false
  end.

(** [strings.Contains(s, substr)]: [substr] occurs in [s] at some
    position; the positions are tried from the left. *)
Fixpoint Contains (s substr : string) : bool :=
  if HasPrefix s substr then true
  else match s with
       | EmptyString => false
       | String _ s' => Contains s' substr
       end.

(** The tail of [s] from byte [n] on, [s[n:]]. *)
Fixpoint drop (n : nat) (s : string) : string :=
  match n, s with
  | O, _ => s
  | S _, EmptyString => EmptyString
  | S n', String _ s' => drop n' s'
  end.

(** [strings.TrimPrefix(s, prefix)]. *)
Definition TrimPrefix (s prefix : string) : string :=
  if HasPrefix s prefix then drop (String.length prefix) s else s.

(** The mathematical notion the two tests decide. *)
Definition is_prefix (p s : string) : Prop := exists t, s = p ++ t.
Definition is_substring (sub s : string) : Prop :=
  exists pre post, s = pre ++ sub ++ post.

End strings.

(** ** Data model *)

(** [types.Container] of the Docker API, with the fields the program
    reads: [ID], [Image], [ImageID] and [Created] (Unix seconds). *)
Record Container : Type := {
  ID : string;
  Image : string;
  ImageID : string;
  Created : Z
}.

(** [Timing], [Whitelist] and [Config].  The two timing fields are
    [uint32] in the source; [uint32] below states their range. *)
Record Timing : Type := { CheckInterval : Z; StopTimeout : Z }.
Record Whitelist : Type := { Images : list string }.
Record Config : Type := { Config_Timing : Timing; Config_Whitelist : Whitelist }.

Definition uint32 (z : Z) : Prop := (0 <= z < 2 ^ 32)%Z.

(** The value of the package variable [config] before the YAML file is
    read over it. *)
Definition config_default : Config :=
  {| Config_Timing := {| CheckInterval := 90; StopTimeout := 30 |};
     Config_Whitelist := {| Images := [] |} |}.

(** The part of a pod the program reads: [pod.Spec.NodeName] and, for
    every entry of [pod.Status.ContainerStatuses], its [ContainerID]. *)
Record ContainerStatus : Type := { ContainerID : string }.
Record Pod : Type := { NodeName : string; ContainerStatuses : list ContainerStatus }.
Record PodList : Type := { Items : list Pod }.

(** ** Package [time]: [time.Duration] is an [int64] count of nanoseconds *)

Module time.

Definition wrap64 (z : Z) : Z := ((z + 2 ^ 63) mod 2 ^ 64 - 2 ^ 63)%Z.

Definition Second : Z := 1000000000%Z.

(** The conversion [time.Duration(x)] of an unsigned 32-bit [x]. *)
Definition Duration (x : Z) : Z := wrap64 x.

(** [a * b] on [int64]. *)
Definition mul (a b : Z) : Z := wrap64 (a * b).

End time.

(** ** The Docker daemon and the two API clients

    The daemon is represented by the containers it runs.  A [Client] is
    what a connection to it answers: [ContainerList] reads the daemon,
    [ContainerStop] may change it; both return Go's [error] as an
    [option string] ([None] is [nil]).  Nothing is assumed about either
    answer. *)
Definition Runtime : Type := list Container.

Record Client : Type := {
  ContainerList : Runtime -> list Container * option string;
  ContainerStop : string -> Z -> Runtime -> Runtime * option string
}.

(** What the outside world answers during one pass:
    [NewEnvClient] is the pair returned by [docker.NewEnvClient()], a
    [*Client] that may be nil and an error;
    [PodsList] is the pair returned by
    [kubeClient.CoreV1().Pods(metav1.NamespaceAll).List(...)], a
    [*PodList] that may be nil and an error. *)
Record Env : Type := {
  NewEnvClient : option Client * option string;
  PodsList : option PodList * option string
}.

(** ** Observable effects *)

(** An operand of [log.Println]: a string, a container printed whole, or
    the age [time.Since(time.Unix(created, 0))] of a creation stamp. *)
Inductive Operand : Type :=
| Str (s : string)
| Val (c : Container)
| Since (created : Z).

Inductive Effect : Type :=
| ELog (operands : list Operand)             (* log.Println(operands...) *)
| EContainerStop (id : string) (timeout : Z) (* cli.ContainerStop(ctx, id, &timeout) *)
| EChanSend (msg : string)                   (* logChannel <- msg *)
| ESleep (d : Z).                            (* time.Sleep(d) *)

(** An event put on the recorder by the notifier goroutine. *)
Record Event : Type := {
  event_node : string; event_type : string;
  event_reason : string; event_message : string
}.

(** ** The monad of the pass: state, trace and panics *)

Record State : Type := { runtime : Runtime; trace : list Effect }.

Inductive Result (A : Type) : Type :=
| Ok (a : A)
| Panic (msg : string).
Arguments Panic {A} msg.

Definition M (A : Type) : Type := State -> Result A * State.

Definition ret {A} (a : A) : M A := fun s => (Ok a, s).

Definition bind {A B} (m : M A) (f : A -> M B) : M B :=
  fun s => match m s with
           | (Ok a, s') => f a s'
           | (Panic msg, s') => (Panic msg, s')
           end.

Declare Scope go_scope.
Delimit Scope go_scope with go.
Notation "x <- m ;; k" := (bind m (fun x => k))
  (at level 61, m at next level, right associativity) : go_scope.
Notation "m ;; k" := (bind m (fun _ => k))
  (at level 61, right associativity) : go_scope.
Local Open Scope go_scope.

Definition panic {A} (msg : string) : M A := fun s => (Panic msg, s).

Definition emit (e : Effect) : M unit :=
  fun s => (Ok tt, {| runtime := runtime s; trace := (trace s ++ [e])%list |}).

Definition Println (operands : list Operand) : M unit := emit (ELog operands).

Definition nil_dereference : string :=
  "runtime error: invalid memory address or nil pointer dereference".

(** [for _, x := range l { body }] with the local variable [acc] that
    the body updates. *)
Fixpoint forRange {A B} (l : list A) (body : B -> A -> M B) (acc : B) : M B :=
  match l with
  | [] => ret acc
  | x :: rest => acc' <- body acc x ;; forRange rest body acc'
  end.

(** [if err != nil { log.Println(what, err.Error()) }]. *)
Definition logIfErr (err : option string) (what : string) : M unit :=
  match err with
  | Some e => Println [Str what; Str e]
  | None => ret tt
  end.

(** Method calls on a [*Client]: a nil client panics when the method
    reaches its fields. *)
Definition callContainerList (cli : option Client) : M (list Container * option string) :=
  match cli with
  | None => panic nil_dereference
  | Some c => fun s => (Ok (ContainerList c (runtime s)), s)
  end.

Definition callContainerStop (cli : option Client) (id : string) (timeout : Z)
  : M (option string) :=
  match cli with
  | None => panic nil_dereference
  | Some c => fun s =>
      let (rt, err) := ContainerStop c id timeout (runtime s) in
      (Ok err, {| runtime := rt; trace := (trace s ++ [EContainerStop id timeout])%list |})
  end.

(** ** The program *)

(** [stringInSlice(a, list)]: true as soon as an element [b] of the list
    satisfies [strings.Contains(b, a)]. *)
Fixpoint stringInSlice (a : string) (list : list string) : bool :=
  match list with
  | [] => false
  | b :: rest => if strings.Contains b a then true else stringInSlice a rest
  end.

(** [compareContainerGroups(dockerGroup, kubernetesGroup)]. *)
Definition compareContainerGroups (dockerGroup : list Container)
    (kubernetesGroup : list string) : M (list Container) :=
  forRange dockerGroup
    (fun orphansFound container =>
       if negb (stringInSlice (ID container) kubernetesGroup) then
         Println [Str "Orphan Container Found:"; Str (ID container); Str "(";
                  Str (Image container); Str ") Age:"; Since (Created container)] ;;
         ret (orphansFound ++ [container])%list
       else ret orphansFound)
    [].

(** [fmt.Sprintf("Dangling container stopped: %s (%s)", id, imageID)] and
    its [found] sibling. *)
Definition stoppedMessage (id imageID : string) : string :=
  "Dangling container stopped: " ++ id ++ " (" ++ imageID ++ ")".
Definition foundMessage (id imageID : string) : string :=
  "Dangling container found: " ++ id ++ " (" ++ imageID ++ ")".

Section Pass.

(** The package variables fixed by [init]. *)
Variable config : Config.
Variable nodeFlag : string.
Variable modeFlag : string.

(** The answers of the outside world during this pass. *)
Variable env : Env.

(** The inner loop of [getDockerContainers]: [remove] for container [c]. *)
Definition whitelisted (c : Container) : bool :=
  fold_left
    (fun remove image => if strings.Contains (Image c) image then true else remove)
    (Images (Config_Whitelist config)) false.

(** [getDockerContainers]; the value is the slice sent on [listChannel]. *)
Definition getDockerContainers : M (list Container) :=
  let (cli, err) := NewEnvClient env in
  logIfErr err "Cannot connect to Docker daemon." ;;
  answer <- callContainerList cli ;;
  let (containers, err) := answer : list Container * option string in
  logIfErr err "No running containers found in Docker." ;;
  ret (fold_left
         (fun filtered c =>
            if negb (whitelisted c) then (filtered ++ [c])%list else filtered)
         containers []).

(** The two loops of [getPodContainers]. *)
Definition podContainerIDs (items : list Pod) : list string :=
  fold_left
    (fun containerIDs pod =>
       if String.eqb (NodeName pod) nodeFlag then
         fold_left
           (fun containerIDs status =>
              (containerIDs ++ [strings.TrimPrefix (ContainerID status) "docker://"])%list)
           (ContainerStatuses pod) containerIDs
       else containerIDs)
    items [].

(** [getPodContainers]; the value is the slice sent on [k8sChannel].
    [podList.Items] dereferences the returned pointer. *)
Definition getPodContainers : M (list string) :=
  let (podList, err) := PodsList env in
  logIfErr err "Error in listing pods:" ;;
  match podList with
  | None => panic nil_dereference
  | Some pl => ret (podContainerIDs (Items pl))
  end.

(** [removeOrReportOrphanContainers(orphans, logChannel)].  The error
    returned by [ContainerStop] is dropped. *)
Definition removeOrReportOrphanContainers (orphans : list Container) : M unit :=
  let (cli, err) := NewEnvClient env in
  logIfErr err "Cannot connect to Docker daemon." ;;
  let stopTimeout :=
    time.mul (time.Duration (StopTimeout (Config_Timing config))) time.Second in
  forRange orphans
    (fun (_ : unit) c =>
       if String.eqb modeFlag "remove" then
         Println [Str "Stopping container:"; Val c] ;;
         _ <- callContainerStop cli (ID c) stopTimeout ;;
         emit (EChanSend (stoppedMessage (ID c) (ImageID c)))
       else
         Println [Str "Observing dangling container:"; Val c] ;;
         emit (EChanSend (foundMessage (ID c) (ImageID c))))
    tt.

(** The first half of [executeCheck]: both fetchers are started and
    [wg.Wait()] returns once each has delivered its slice.  The two
    run concurrently; their log lines are recorded here in one of the
    possible orders, and neither reads what the other writes. *)
Definition fetchBoth : M (list string * list Container) :=
  kubernetesContainers <- getPodContainers ;;
  dockerContainers <- getDockerContainers ;;
  ret (kubernetesContainers, dockerContainers).

(** [executeCheck]. *)
Definition executeCheck : M unit :=
  fetched <- fetchBoth ;;
  let (kubernetesContainers, dockerContainers) :=
    fetched : list string * list Container in
  orphans <- compareContainerGroups dockerContainers kubernetesContainers ;;
  if (0 <? length orphans)%nat then removeOrReportOrphanContainers orphans
  else Println [Str "No orphaned containers found."].

(** [sendEvent(reason, messageFmt)] on the recorder of node [nodeFlag]. *)
Definition sendEvent (reason messageFmt : string) : Event :=
  {| event_node := nodeFlag; event_type := "Warning";
     event_reason := reason; event_message := messageFmt |}.

End Pass.

(** The messages a trace sends on the log channel, and the stop calls it
    makes, in order. *)
Definition sent (t : list Effect) : list string :=
  flat_map (fun e => match e with EChanSend msg => [msg] | _ => [] end) t.

Definition stops (t : list Effect) : list (string * Z) :=
  flat_map (fun e => match e with EContainerStop id d => [(id, d)] | _ => [] end) t.

(** The notifier goroutine of [executeCheck]: every message received
    from the channel becomes one [DanglingContainer] event. *)
Definition notifier (nodeFlag : string) (t : list Effect) : list Event :=
  map (fun msg => sendEvent nodeFlag "DanglingContainer" msg) (sent t).

(** [main]: [executeCheck], then [time.Sleep], forever.  [passes] bounds
    the number of iterations observed; [envs] gives the world of each. *)
Fixpoint main (config : Config) (nodeFlag modeFlag : string)
    (envs : nat -> Env) (passes : nat) : M unit :=
  match passes with
  | O => ret tt
  | S n =>
      executeCheck config nodeFlag modeFlag (envs O) ;;
      emit (ESleep (time.mul (time.Duration (CheckInterval (Config_Timing config)))
                             time.Second)) ;;
      main config nodeFlag modeFlag (fun i => envs (S i)) n
  end.

(** ** Vocabulary of the statements *)

(** The trace written by [logIfErr]. *)
Definition errLog (err : option string) (what : string) : list Effect :=
  match err with
  | Some e => [ELog [Str what; Str e]]
  | None => []
  end.

(** The test and the log line of the loop body of
    [compareContainerGroups]. *)
Definition isOrphan (K : list string) (c : Container) : bool :=
  negb (stringInSlice (ID c) K).

Definition orphanLog (c : Container) : Effect :=
  ELog [Str "Orphan Container Found:"; Str (ID c); Str "(";
        Str (Image c); Str ") Age:"; Since (Created c)].

Definition observeEffects (c : Container) : list Effect :=
  [ELog [Str "Observing dangling container:"; Val c];
   EChanSend (foundMessage (ID c) (ImageID c))].

Definition stopEffects (timeout : Z) (c : Container) : list Effect :=
  [ELog [Str "Stopping container:"; Val c];
   EContainerStop (ID c) timeout;
   EChanSend (stoppedMessage (ID c) (ImageID c))].

(** The daemon after the stop calls for [orphans], one after the other. *)
Definition stopAll (cli : Client) (timeout : Z) (orphans : list Container)
    (rt : Runtime) : Runtime :=
  fold_left (fun rt c => fst (ContainerStop cli (ID c) timeout rt)) orphans rt.

Definition stopTimeoutOf (config : Config) : Z :=
  time.mul (time.Duration (StopTimeout (Config_Timing config))) time.Second.

(** The event the notifier publishes for a dispatcher message. *)
Definition danglingEvent (nodeFlag msg : string) : Event :=
  {| event_node := nodeFlag; event_type := "Warning";
     event_reason := "DanglingContainer"; event_message := msg |}.

(** A state to run examples from: no container, nothing traced yet. *)
Definition idle : State := {| runtime := []; trace := [] |}.

(** A daemon connection for the examples: [ContainerList] answers the
    containers the daemon runs, [ContainerStop] refuses every request. *)
Definition refusingClient : Client :=
  {| ContainerList := fun rt => (rt, None);
     ContainerStop := fun id _ rt => (rt, Some ("No such container: " ++ id)) |}.

(** A daemon connection whose [ContainerStop] removes the container. *)
Definition obligingClient : Client :=
  {| ContainerList := fun rt => (rt, None);
     ContainerStop := fun id _ rt =>
       (filter (fun c => negb (String.eqb (ID c) id)) rt, None) |}.

(** ** The mode fixed by [init]

    [init] hands [flag.StringVar] the value of the environment variable
    MODE as the default of [-mode] when that value is not empty, and
    "watch" otherwise; [flag.Parse] then stores the value of a [-mode]
    argument when the command line has one ([arg], the last one given). *)
Definition init_modeFlag (Getenv : string -> string) (arg : option string) : string :=
  let default :=
    if negb (String.eqb (Getenv "MODE") "") then Getenv "MODE" else "watch" in
  match arg with
  | Some value => value
  | None => default
  end.

(** ** Frames

    [emits_only allowed m]: whatever the state and the outcome, [m] only
    appends effects that [allowed] accepts; [keeps_runtime m]: [m] leaves
    the daemon as it found it. *)
Definition emits_only (allowed : Effect -> bool) {A} (m : M A) : Prop :=
  forall s, exists t,
    trace (snd (m s)) = (trace s ++ t)%list /\ forallb allowed t = true.

Definition keeps_runtime {A} (m : M A) : Prop :=
  forall s, runtime (snd (m s)) = runtime s.

Definition isLog (e : Effect) : bool :=
  match e with ELog _ => true | _ => false end.

Definition isLogOrSend (e : Effect) : bool :=
  match e with ELog _ | EChanSend _ => true | _ => false end.

Definition notStop (e : Effect) : bool :=
  match e with EContainerStop _ _ => false | _ => true end.

Definition notSleep (e : Effect) : bool :=
  match e with ESleep _ => false | _ => true end.

(** The sleeps of a trace, in order. *)
Definition sleeps (t : list Effect) : list Z :=
  flat_map (fun e => match e with ESleep d => [d] | _ => [] end) t.

(** The inventory [getDockerContainers] keeps of what the daemon lists. *)
Definition kept (config : Config) (containers : list Container) : list Container :=
  filter (fun c => negb (whitelisted config c)) containers.

(** The identifiers the pods of node [nodeFlag] contribute, pod by pod. *)
Definition idsOfPod (nodeFlag : string) (pod : Pod) : list string :=
  if String.eqb (NodeName pod) nodeFlag then
    map (fun status => strings.TrimPrefix (ContainerID status) "docker://")
        (ContainerStatuses pod)
  else [].

(** The orphans of a pass, from the pod list and the daemon's list, and
    the log lines the two fetchers may write. *)
Definition passOrphans (config : Config) (nodeFlag : string) (pl : PodList)
    (containers : list Container) : list Container :=
  filter (isOrphan (podContainerIDs nodeFlag (Items pl))) (kept config containers).

Definition fetchLog (perr err err' : option string) : list Effect :=
  (errLog perr "Error in listing pods:"
     ++ errLog err "Cannot connect to Docker daemon."
     ++ errLog err' "No running containers found in Docker.")%list.

(** * Properties *)

(** ** Package [strings] *)

Lemma HasPrefix_spec s p :
  strings.HasPrefix s p = true <-> strings.is_prefix p s.
Proof.
  unfold strings.is_prefix.
  revert s; induction p as [|a p IH]; intros s; simpl.
  - split; [intros _; now exists s | reflexivity].
  - destruct s as [|b s].
    + split; [discriminate | intros [t Ht]; discriminate].
    + destruct (Ascii.eqb_spec a b) as [->|Hab].
      * rewrite IH. split; intros [t Ht]; exists t.
        -- simpl; now rewrite Ht.
        -- simpl in Ht; now inversion Ht.
      * split; [discriminate | intros [t Ht]].
        simpl in Ht; inversion Ht; congruence.
Qed.

Lemma HasPrefix_intro p t : strings.HasPrefix (p ++ t) p = true.
Proof. apply HasPrefix_spec. now exists t. Qed.

Lemma Contains_spec s sub :
  strings.Contains s sub = true <-> strings.is_substring sub s.
Proof.
  unfold strings.is_substring.
  induction s as [|b s IH]; simpl.
  - destruct (strings.HasPrefix "" sub) eqn:E.
    + split; [intros _ | reflexivity].
      apply HasPrefix_spec in E. destruct E as [t Ht].
      exists "", t. exact Ht.
    + split; [discriminate | intros (pre & post & H)].
      destruct pre; simpl in H; [|discriminate].
      rewrite H, HasPrefix_intro in E. discriminate.
  - destruct (strings.HasPrefix (String b s) sub) eqn:E.
    + split; [intros _ | reflexivity].
      apply HasPrefix_spec in E. destruct E as [t Ht].
      exists "", t. exact Ht.
    + rewrite IH. split.
      * intros (pre & post & H). exists (String b pre), post.
        simpl; now rewrite H.
      * intros (pre & post & H). destruct pre as [|c pre]; simpl in H.
        -- rewrite H, HasPrefix_intro in E. discriminate.
        -- inversion H; subst. now exists pre, post.
Qed.

Lemma Contains_empty s : strings.Contains s "" = true.
Proof. destruct s; reflexivity. Qed.

(** [strings.TrimPrefix] removes a prefix that is there. *)
Lemma TrimPrefix_app p t : strings.TrimPrefix (p ++ t) p = t.
Proof.
  unfold strings.TrimPrefix. rewrite HasPrefix_intro.
  induction p as [|a p IH]; simpl; [now destruct t | exact IH].
Qed.

(** ** Package [time] *)

Lemma wrap64_small z : (- 2 ^ 63 <= z < 2 ^ 63)%Z -> time.wrap64 z = z.
Proof. intros H. unfold time.wrap64. rewrite Z.mod_small; lia. Qed.

(** A number of seconds that fits [uint32] never overflows a Duration. *)
Lemma seconds_exact x :
  uint32 x -> time.mul (time.Duration x) time.Second = (x * 1000000000)%Z.
Proof.
  unfold uint32, time.mul, time.Duration, time.Second. intros H.
  rewrite (wrap64_small (z := x)) by lia.
  apply wrap64_small. lia.
Qed.


(** ** Steps of the monad *)

Lemma state_eta (s : State) : {| runtime := runtime s; trace := trace s |} = s.
Proof. now destruct s. Qed.

Lemma state_app_nil (s : State) :
  {| runtime := runtime s; trace := (trace s ++ [])%list |} = s.
Proof. rewrite app_nil_r. apply state_eta. Qed.

Lemma bind_ok {A B} (m : M A) (f : A -> M B) s a s' :
  m s = (Ok a, s') -> bind m f s = f a s'.
Proof. unfold bind. now intros ->. Qed.
Arguments bind_ok {A B m} f {s a s'} _.


Lemma emit_eq e s :
  emit e s = (Ok tt, {| runtime := runtime s; trace := (trace s ++ [e])%list |}).
Proof. reflexivity. Qed.

Lemma logIfErr_eq err what s :
  logIfErr err what s =
  (Ok tt, {| runtime := runtime s; trace := (trace s ++ errLog err what)%list |}).
Proof.
  destruct err as [e|]; simpl.
  - reflexivity.
  - unfold ret. now rewrite state_app_nil.
Qed.

Lemma sent_app t1 t2 : sent (t1 ++ t2)%list = (sent t1 ++ sent t2)%list.
Proof. unfold sent. apply flat_map_app. Qed.

Lemma stops_app t1 t2 : stops (t1 ++ t2)%list = (stops t1 ++ stops t2)%list.
Proof. unfold stops. apply flat_map_app. Qed.

Lemma sent_errLog err what : sent (errLog err what) = [].
Proof. now destruct err. Qed.

Lemma stops_errLog err what : stops (errLog err what) = [].
Proof. now destruct err. Qed.

(** ** The membership test *)

Lemma stringInSlice_existsb a K :
  stringInSlice a K = existsb (fun b => strings.Contains b a) K.
Proof.
  induction K as [|b K IH]; simpl; [reflexivity|].
  rewrite IH. now destruct (strings.Contains b a).
Qed.

Lemma stringInSlice_spec a K :
  stringInSlice a K = true <->
  exists b, In b K /\ strings.is_substring a b.
Proof.
  rewrite stringInSlice_existsb, existsb_exists.
  split; intros (b & Hb & H); exists b; split; trivial;
    now apply Contains_spec.
Qed.

(** ** The reconciler *)

Lemma compare_loop K R : forall acc s,
  forRange R
    (fun orphansFound container =>
       if negb (stringInSlice (ID container) K) then
         Println [Str "Orphan Container Found:"; Str (ID container); Str "(";
                  Str (Image container); Str ") Age:"; Since (Created container)] ;;
         ret (orphansFound ++ [container])%list
       else ret orphansFound) acc s =
  (Ok (acc ++ filter (isOrphan K) R)%list,
   {| runtime := runtime s;
      trace := (trace s ++ map orphanLog (filter (isOrphan K) R))%list |}).
Proof.
  induction R as [|c R IH]; intros acc s; simpl.
  - unfold ret. now rewrite app_nil_r, state_app_nil.
  - change (negb (stringInSlice (ID c) K)) with (isOrphan K c).
    unfold bind at 1.
    destruct (isOrphan K c); simpl.
    + rewrite IH. simpl. now rewrite <- !app_assoc.
    + unfold ret at 1. apply IH.
Qed.

Lemma compare_eq R K s :
  compareContainerGroups R K s =
  (Ok (filter (isOrphan K) R),
   {| runtime := runtime s;
      trace := (trace s ++ map orphanLog (filter (isOrphan K) R))%list |}).
Proof. unfold compareContainerGroups. now rewrite compare_loop. Qed.

Lemma isOrphan_spec K c :
  isOrphan K c = true <->
  ~ exists k, In k K /\ strings.is_substring (ID c) k.
Proof.
  unfold isOrphan. rewrite negb_true_iff, <- not_true_iff_false.
  now rewrite stringInSlice_spec.
Qed.

(** ** Loops whose body always completes *)

Lemma forRange_steps {A} (body : unit -> A -> M unit)
    (f : A -> list Effect) (g : A -> Runtime -> Runtime) :
  (forall u a s,
      body u a s =
      (Ok tt, {| runtime := g a (runtime s); trace := (trace s ++ f a)%list |})) ->
  forall l s,
    forRange l body tt s =
    (Ok tt, {| runtime := fold_left (fun rt a => g a rt) l (runtime s);
               trace := (trace s ++ flat_map f l)%list |}).
Proof.
  intros Hbody l. induction l as [|a l IH]; intros s; simpl.
  - unfold ret. now rewrite state_app_nil.
  - rewrite (bind_ok _ (Hbody tt a s)), IH. simpl.
    now rewrite <- app_assoc.
Qed.

Lemma fold_left_keep {A B} (l : list A) (b : B) : fold_left (fun rt _ => rt) l b = b.
Proof. induction l; simpl; auto. Qed.

(** ** The runtime inventory fetcher *)

Lemma remove_flag_existsb (p : string -> bool) images : forall remove,
  fold_left (fun remove image => if p image then true else remove) images remove =
  (remove || existsb p images)%bool.
Proof.
  induction images as [|i images IH]; intros remove; simpl.
  - now rewrite orb_false_r.
  - rewrite IH. destruct (p i), remove; reflexivity.
Qed.

Lemma whitelisted_existsb config c :
  whitelisted config c =
  existsb (fun image => strings.Contains (Image c) image)
          (Images (Config_Whitelist config)).
Proof. unfold whitelisted. now rewrite remove_flag_existsb. Qed.

Lemma whitelisted_spec config c :
  whitelisted config c = true <->
  exists image, In image (Images (Config_Whitelist config)) /\
                strings.is_substring image (Image c).
Proof.
  rewrite whitelisted_existsb, existsb_exists.
  split; intros (i & Hi & H); exists i; split; trivial;
    now apply Contains_spec.
Qed.

Lemma filtered_loop (keep : Container -> bool) containers : forall filtered,
  fold_left (fun filtered c => if keep c then (filtered ++ [c])%list else filtered)
            containers filtered =
  (filtered ++ filter keep containers)%list.
Proof.
  induction containers as [|c l IH]; intros filtered; simpl.
  - now rewrite app_nil_r.
  - rewrite IH. destruct (keep c); [now rewrite <- app_assoc | reflexivity].
Qed.

Lemma getDockerContainers_eq config env cli err containers err' s :
  NewEnvClient env = (Some cli, err) ->
  ContainerList cli (runtime s) = (containers, err') ->
  getDockerContainers config env s =
  (Ok (filter (fun c => negb (whitelisted config c)) containers),
   {| runtime := runtime s;
      trace := (trace s ++ errLog err "Cannot connect to Docker daemon."
                        ++ errLog err' "No running containers found in Docker.")%list |}).
Proof.
  intros Hcli Hlist. unfold getDockerContainers. rewrite Hcli.
  rewrite (bind_ok _ (logIfErr_eq _ _ _)).
  unfold callContainerList, bind at 1. simpl. rewrite Hlist.
  rewrite (bind_ok _ (logIfErr_eq _ _ _)). unfold ret. simpl.
  now rewrite filtered_loop, <- app_assoc.
Qed.


(** ** The orchestrator inventory fetcher *)

Lemma getPodContainers_eq nodeFlag env pl err s :
  PodsList env = (Some pl, err) ->
  getPodContainers nodeFlag env s =
  (Ok (podContainerIDs nodeFlag (Items pl)),
   {| runtime := runtime s;
      trace := (trace s ++ errLog err "Error in listing pods:")%list |}).
Proof.
  intros H. unfold getPodContainers. rewrite H.
  now rewrite (bind_ok _ (logIfErr_eq _ _ _)).
Qed.

(** ** The action dispatcher *)

Lemma dispatch_report config modeFlag env orphans s :
  modeFlag <> "remove" ->
  removeOrReportOrphanContainers config modeFlag env orphans s =
  (Ok tt,
   {| runtime := runtime s;
      trace := (trace s
                  ++ errLog (snd (NewEnvClient env)) "Cannot connect to Docker daemon."
                  ++ flat_map observeEffects orphans)%list |}).
Proof.
  intros Hmode. unfold removeOrReportOrphanContainers.
  destruct (NewEnvClient env) as [cli err]. simpl.
  rewrite (bind_ok _ (logIfErr_eq _ _ _)).
  apply String.eqb_neq in Hmode. rewrite Hmode.
  rewrite (@forRange_steps _ _ observeEffects (fun _ rt => rt)).
  - simpl. now rewrite fold_left_keep, <- app_assoc.
  - intros u a s'. unfold bind, Println, emit. simpl.
    now rewrite <- app_assoc.
Qed.

Lemma dispatch_remove config env cli err orphans s :
  NewEnvClient env = (Some cli, err) ->
  removeOrReportOrphanContainers config "remove" env orphans s =
  (Ok tt,
   {| runtime := stopAll cli (stopTimeoutOf config) orphans (runtime s);
      trace := (trace s
                  ++ errLog err "Cannot connect to Docker daemon."
                  ++ flat_map (stopEffects (stopTimeoutOf config)) orphans)%list |}).
Proof.
  intros Hcli. unfold removeOrReportOrphanContainers. rewrite Hcli.
  rewrite (bind_ok _ (logIfErr_eq _ _ _)).
  rewrite String.eqb_refl.
  rewrite (@forRange_steps _ _ (stopEffects (stopTimeoutOf config))
             (fun c rt => fst (ContainerStop cli (ID c) (stopTimeoutOf config) rt))).
  - simpl. unfold stopAll. now rewrite <- app_assoc.
  - intros u a s'. unfold bind, Println, emit, callContainerStop. simpl.
    fold (stopTimeoutOf config).
    destruct (ContainerStop cli (ID a) (stopTimeoutOf config) (runtime s')) as [rt e].
    simpl. now rewrite <- !app_assoc.
Qed.

Lemma sent_observe orphans :
  sent (flat_map observeEffects orphans) =
  map (fun c => foundMessage (ID c) (ImageID c)) orphans.
Proof. induction orphans as [|c l IH]; simpl; [|rewrite <- IH]; reflexivity. Qed.

Lemma stops_observe orphans : stops (flat_map observeEffects orphans) = [].
Proof. induction orphans as [|c l IH]; simpl; auto. Qed.

Lemma sent_stop timeout orphans :
  sent (flat_map (stopEffects timeout) orphans) =
  map (fun c => stoppedMessage (ID c) (ImageID c)) orphans.
Proof. induction orphans as [|c l IH]; simpl; [|rewrite <- IH]; reflexivity. Qed.

Lemma stops_stop timeout orphans :
  stops (flat_map (stopEffects timeout) orphans) =
  map (fun c => (ID c, timeout)) orphans.
Proof. induction orphans as [|c l IH]; simpl; [|rewrite <- IH]; reflexivity. Qed.

(** * The claims of the specification *)

(** ** Reconciler *)

(** C1, as the specification words it, fails: the container ["abc123x"]
    has the orchestrator identifier ["abc123"] as a substring of its own
    identifier, and [compareContainerGroups] still returns it as an
    orphan, because [stringInSlice] asks the opposite containment. *)
Lemma compare_direction_counterexample :
  let c := {| ID := "abc123x"; Image := "nginx"; ImageID := "sha256:0"; Created := 0 |} in
  (forall r, In r [c] ->
     exists k, In k ["abc123"] /\ strings.is_substring k (ID r)) /\
  fst (compareContainerGroups [c] ["abc123"] idle) = Ok [c].
Proof.
  simpl. split; [|reflexivity].
  intros r [<-|[]]. exists "abc123". split; [now left|].
  exists "", "x". reflexivity.
Qed.

(** C1, amended: a container record of the runtime inventory is in the
    orphan set returned by [compareContainerGroups] if and only if no
    orchestrator identifier contains the record's identifier as a
    substring; in particular, when the identifier of every record is a
    substring of some orchestrator identifier, the orphan set is empty. *)
Theorem compare_orphan_iff (R : list Container) (K : list string) (s : State) :
  exists orphans s',
    compareContainerGroups R K s = (Ok orphans, s') /\
    (forall c, In c orphans <->
               In c R /\ ~ exists k, In k K /\ strings.is_substring (ID c) k) /\
    ((forall c, In c R -> exists k, In k K /\ strings.is_substring (ID c) k) ->
     orphans = []).
Proof.
  eexists _, _. split; [apply compare_eq|]. split.
  - intros c. rewrite filter_In, isOrphan_spec. reflexivity.
  - intros Hall. induction R as [|c R IH]; simpl; [reflexivity|].
    destruct (isOrphan K c) eqn:E.
    + apply isOrphan_spec in E. exfalso. apply E, Hall. now left.
    + apply IH. intros c' Hc'. apply Hall. now right.
Qed.

Lemma compare_orphan_iff_witness :
  let c := {| ID := "abc123"; Image := "nginx"; ImageID := "sha256:0"; Created := 0 |} in
  exists orphans s',
    compareContainerGroups [c] ["xabc123y"] idle = (Ok orphans, s') /\ orphans = [].
Proof.
  intros c.
  destruct (compare_orphan_iff [c] ["xabc123y"] idle) as (orphans & s' & E & _ & H).
  exists orphans, s'. split; [exact E|]. apply H.
  intros r [<-|[]]. exists "xabc123y". split; [now left|].
  exists "x", "y". reflexivity.
Defined.

(** C7: every element of the orphan set returned by
    [compareContainerGroups] is an element of the runtime inventory it
    was given. *)
Theorem compare_subset (R : list Container) (K : list string) (s : State) :
  exists orphans s',
    compareContainerGroups R K s = (Ok orphans, s') /\ incl orphans R.
Proof.
  eexists _, _. split; [apply compare_eq|]. apply incl_filter.
Qed.

(** C8: comparing the same pair of inventories a second time, from the
    state the first comparison left, returns the same orphan set. *)
Theorem compare_twice (R : list Container) (K : list string) (s : State) :
  exists orphans s1 s2,
    compareContainerGroups R K s = (Ok orphans, s1) /\
    compareContainerGroups R K s1 = (Ok orphans, s2).
Proof.
  eexists _, _, _. split; apply compare_eq.
Qed.

(** C10: against a non-empty orchestrator list the membership test
    succeeds for the empty identifier, so a container with the empty
    identifier is never in the orphan set. *)
Theorem empty_id_matched (R : list Container) (K : list string) (c : Container)
    (s : State) :
  K <> [] -> ID c = "" ->
  (forall k, strings.Contains k (ID c) = true) /\
  stringInSlice (ID c) K = true /\
  exists orphans s',
    compareContainerGroups R K s = (Ok orphans, s') /\ ~ In c orphans.
Proof.
  intros HK Hid.
  assert (Hin : stringInSlice (ID c) K = true).
  { rewrite Hid. destruct K as [|b K]; [congruence|].
    simpl. now rewrite Contains_empty. }
  split; [intros k; rewrite Hid; apply Contains_empty|].
  split; [exact Hin|].
  eexists _, _. split; [apply compare_eq|].
  rewrite filter_In. unfold isOrphan. rewrite Hin. intros [_ H]. discriminate.
Qed.

Lemma empty_id_matched_witness :
  let c := {| ID := ""; Image := "nginx"; ImageID := "sha256:0"; Created := 0 |} in
  (forall k, strings.Contains k (ID c) = true) /\
  stringInSlice (ID c) ["def456"] = true /\
  exists orphans s',
    compareContainerGroups [c] ["def456"] idle = (Ok orphans, s') /\ ~ In c orphans.
Proof.
  intros c. apply (empty_id_matched [c] (K := ["def456"]) c idle).
  - discriminate.
  - reflexivity.
Defined.

(** ** Action dispatcher *)

Lemma notifier_app nodeFlag t1 t2 :
  notifier nodeFlag (t1 ++ t2)%list = (notifier nodeFlag t1 ++ notifier nodeFlag t2)%list.
Proof. unfold notifier. now rewrite sent_app, map_app. Qed.

(** C3: in watch mode the dispatcher completes for every orphan set,
    leaves the daemon as it was and makes no [ContainerStop] call; it
    sends the message "Dangling container found: <id> (<image-id>)" once
    per orphan, and when the runtime client was created without error
    its whole trace is one log line and that message per orphan. *)
Theorem watch_never_stops (config : Config) (nodeFlag : string) (env : Env)
    (orphans : list Container) (s : State) :
  exists t,
    removeOrReportOrphanContainers config "watch" env orphans s =
      (Ok tt, {| runtime := runtime s; trace := (trace s ++ t)%list |}) /\
    stops t = [] /\
    sent t = map (fun c => "Dangling container found: " ++ ID c
                             ++ " (" ++ ImageID c ++ ")") orphans /\
    notifier nodeFlag t =
      map (fun c => danglingEvent nodeFlag
                      ("Dangling container found: " ++ ID c
                         ++ " (" ++ ImageID c ++ ")")) orphans /\
    (snd (NewEnvClient env) = None ->
     t = flat_map
           (fun c => [ELog [Str "Observing dangling container:"; Val c];
                      EChanSend ("Dangling container found: " ++ ID c
                                   ++ " (" ++ ImageID c ++ ")")])
           orphans).
Proof.
  eexists. split; [apply dispatch_report; discriminate|].
  assert (Hsent :
    sent (errLog (snd (NewEnvClient env)) "Cannot connect to Docker daemon."
            ++ flat_map observeEffects orphans)%list =
    map (fun c => foundMessage (ID c) (ImageID c)) orphans).
  { now rewrite sent_app, sent_errLog, sent_observe. }
  repeat split.
  - now rewrite stops_app, stops_errLog, stops_observe.
  - exact Hsent.
  - unfold notifier. rewrite Hsent, map_map. reflexivity.
  - intros ->. reflexivity.
Qed.

Lemma watch_never_stops_witness :
  let c := {| ID := "abc123"; Image := "nginx"; ImageID := "sha256:1"; Created := 5 |} in
  let env := {| NewEnvClient := (None, None); PodsList := (None, None) |} in
  removeOrReportOrphanContainers config_default "watch" env [c] idle =
  (Ok tt,
   {| runtime := [];
      trace := [ELog [Str "Observing dangling container:"; Val c];
                EChanSend "Dangling container found: abc123 (sha256:1)"] |}).
Proof.
  intros c env.
  destruct (watch_never_stops config_default "node-1" env [c] idle)
    as (t & E & _ & _ & _ & Ht).
  rewrite E, Ht; reflexivity.
Defined.

(** C9: with any mode string other than "remove" the dispatcher does
    exactly what it does in watch mode: no [ContainerStop] call, the
    daemon unchanged, and the "Dangling container found" message for
    each orphan. *)
Theorem other_modes_report (config : Config) (modeFlag : string) (env : Env)
    (orphans : list Container) (s : State) :
  modeFlag <> "remove" ->
  removeOrReportOrphanContainers config modeFlag env orphans s =
    removeOrReportOrphanContainers config "watch" env orphans s /\
  exists t,
    removeOrReportOrphanContainers config modeFlag env orphans s =
      (Ok tt, {| runtime := runtime s; trace := (trace s ++ t)%list |}) /\
    stops t = [] /\
    sent t = map (fun c => "Dangling container found: " ++ ID c
                             ++ " (" ++ ImageID c ++ ")") orphans.
Proof.
  intros Hmode. split.
  - rewrite (dispatch_report config env orphans s Hmode).
    symmetry. apply dispatch_report. discriminate.
  - eexists. split; [apply dispatch_report; exact Hmode|]. split.
    + now rewrite stops_app, stops_errLog, stops_observe.
    + rewrite sent_app, sent_errLog, sent_observe. reflexivity.
Qed.

Lemma other_modes_report_witness :
  let c := {| ID := "abc123"; Image := "nginx"; ImageID := "sha256:1"; Created := 5 |} in
  let env := {| NewEnvClient := (None, None); PodsList := (None, None) |} in
  removeOrReportOrphanContainers config_default "Remove" env [c] idle =
  removeOrReportOrphanContainers config_default "watch" env [c] idle.
Proof.
  intros c env.
  apply (other_modes_report config_default (modeFlag := "Remove") env [c] idle).
  discriminate.
Defined.

(** C4: in remove mode, with a runtime client at hand, the dispatcher
    makes exactly one [ContainerStop] call per orphan, in the order of
    the orphan set, each with the configured [StopTimeout] seconds (in
    nanoseconds) as its timeout; the daemon ends in the state these
    calls leave. *)
Theorem remove_stops_each_once (config : Config) (env : Env) (cli : Client)
    (err : option string) (orphans : list Container) (s : State) :
  NewEnvClient env = (Some cli, err) ->
  uint32 (StopTimeout (Config_Timing config)) ->
  exists t s',
    removeOrReportOrphanContainers config "remove" env orphans s = (Ok tt, s') /\
    trace s' = (trace s ++ t)%list /\
    stops t = map (fun c => (ID c, StopTimeout (Config_Timing config) * 1000000000)%Z)
                  orphans /\
    runtime s' =
      stopAll cli (StopTimeout (Config_Timing config) * 1000000000)%Z
              orphans (runtime s).
Proof.
  intros Hcli Hrange.
  eexists _, _. split; [apply (dispatch_remove config env orphans s Hcli)|].
  simpl. unfold stopTimeoutOf. rewrite (seconds_exact Hrange).
  repeat split.
  now rewrite stops_app, stops_errLog, stops_stop.
Qed.

Lemma remove_stops_each_once_witness :
  let c1 := {| ID := "abc123"; Image := "nginx"; ImageID := "sha256:1"; Created := 5 |} in
  let c2 := {| ID := "def456"; Image := "redis"; ImageID := "sha256:2"; Created := 6 |} in
  let env := {| NewEnvClient := (Some obligingClient, None); PodsList := (None, None) |} in
  exists t s',
    removeOrReportOrphanContainers config_default "remove" env [c1; c2]
      {| runtime := [c1; c2]; trace := [] |} = (Ok tt, s') /\
    trace s' = t /\
    stops t = [("abc123", 30000000000%Z); ("def456", 30000000000%Z)] /\
    runtime s' = [].
Proof.
  intros c1 c2 env.
  destruct (remove_stops_each_once config_default env (cli := obligingClient)
              (err := None) [c1; c2] {| runtime := [c1; c2]; trace := [] |})
    as (t & s' & E & Ht & Hs & Hr).
  - reflexivity.
  - unfold uint32; simpl; lia.
  - exists t, s'. repeat split; assumption.
Defined.

(** C5: in remove mode, with a runtime client at hand, the dispatcher
    sends "Dangling container stopped: <id> (<image-id>)" for every
    orphan whatever [ContainerStop] answers: its trace is the same for
    every behaviour of the client, and no other message is sent. *)
Theorem remove_message_ignores_stop_result (config : Config) (nodeFlag : string)
    (env : Env) (cli : Client) (err : option string)
    (orphans : list Container) (s : State) :
  NewEnvClient env = (Some cli, err) ->
  exists t s',
    removeOrReportOrphanContainers config "remove" env orphans s = (Ok tt, s') /\
    trace s' = (trace s ++ t)%list /\
    t = (errLog err "Cannot connect to Docker daemon."
           ++ flat_map
                (fun c => [ELog [Str "Stopping container:"; Val c];
                           EContainerStop (ID c) (stopTimeoutOf config);
                           EChanSend ("Dangling container stopped: " ++ ID c
                                        ++ " (" ++ ImageID c ++ ")")])
                orphans)%list /\
    sent t = map (fun c => "Dangling container stopped: " ++ ID c
                             ++ " (" ++ ImageID c ++ ")") orphans /\
    notifier nodeFlag t =
      map (fun c => danglingEvent nodeFlag
                      ("Dangling container stopped: " ++ ID c
                         ++ " (" ++ ImageID c ++ ")")) orphans.
Proof.
  intros Hcli.
  eexists _, _. split; [apply (dispatch_remove config env orphans s Hcli)|].
  simpl.
  assert (Hsent :
    sent (errLog err "Cannot connect to Docker daemon."
            ++ flat_map (stopEffects (stopTimeoutOf config)) orphans)%list =
    map (fun c => stoppedMessage (ID c) (ImageID c)) orphans).
  { now rewrite sent_app, sent_errLog, sent_stop. }
  repeat split.
  - exact Hsent.
  - unfold notifier. rewrite Hsent, map_map. reflexivity.
Qed.

Lemma remove_message_ignores_stop_result_witness :
  let c := {| ID := "abc123"; Image := "nginx"; ImageID := "sha256:1"; Created := 5 |} in
  let env := {| NewEnvClient := (Some refusingClient, None); PodsList := (None, None) |} in
  exists t s',
    removeOrReportOrphanContainers config_default "remove" env [c]
      {| runtime := [c]; trace := [] |} = (Ok tt, s') /\
    ContainerStop refusingClient "abc123" (stopTimeoutOf config_default) [c]
      = ([c], Some "No such container: abc123") /\
    sent t = ["Dangling container stopped: abc123 (sha256:1)"].
Proof.
  intros c env.
  destruct (remove_message_ignores_stop_result config_default "node-1" env
              (cli := refusingClient) (err := None) [c]
              {| runtime := [c]; trace := [] |})
    as (t & s' & E & _ & _ & Hs & _).
  - reflexivity.
  - exists t, s'. repeat split; assumption.
Defined.

(** ** Whitelist *)

(** C6: a container whose image reference contains a whitelist entry is
    left out of the inventory [getDockerContainers] delivers, and so is
    in no orphan set computed from that inventory, whatever the
    orchestrator list is (the empty list included). *)
Theorem whitelisted_never_orphan (config : Config) (env : Env) (cli : Client)
    (err err' : option string) (containers : list Container)
    (c : Container) (s : State) :
  NewEnvClient env = (Some cli, err) ->
  ContainerList cli (runtime s) = (containers, err') ->
  (exists image, In image (Images (Config_Whitelist config)) /\
                 strings.is_substring image (Image c)) ->
  exists filtered s1,
    getDockerContainers config env s = (Ok filtered, s1) /\
    ~ In c filtered /\
    forall K s2, exists orphans s3,
      compareContainerGroups filtered K s2 = (Ok orphans, s3) /\ ~ In c orphans.
Proof.
  intros Hcli Hlist Hwhite.
  apply whitelisted_spec in Hwhite.
  assert (Hout : ~ In c (filter (fun c => negb (whitelisted config c)) containers)).
  { rewrite filter_In, Hwhite. intros [_ H]. discriminate. }
  eexists _, _. split; [apply (getDockerContainers_eq config env s Hcli Hlist)|].
  split; [exact Hout|].
  intros K s2. eexists _, _. split; [apply compare_eq|].
  rewrite filter_In. tauto.
Qed.

Lemma whitelisted_never_orphan_witness :
  let c := {| ID := "abc123"; Image := "gcr.io/google_containers/pause-amd64";
              ImageID := "sha256:1"; Created := 5 |} in
  let config := {| Config_Timing := {| CheckInterval := 90; StopTimeout := 30 |};
                   Config_Whitelist := {| Images := ["pause-amd64"] |} |} in
  let env := {| NewEnvClient := (Some obligingClient, None); PodsList := (None, None) |} in
  exists filtered s1,
    getDockerContainers config env {| runtime := [c]; trace := [] |} = (Ok filtered, s1) /\
    ~ In c filtered /\
    exists orphans s3,
      compareContainerGroups filtered [] s1 = (Ok orphans, s3) /\ ~ In c orphans.
Proof.
  intros c config env.
  destruct (whitelisted_never_orphan config env (cli := obligingClient)
              (err := None) (err' := None) (containers := [c]) c
              {| runtime := [c]; trace := [] |})
    as (filtered & s1 & E & Hout & Hcmp).
  - reflexivity.
  - reflexivity.
  - exists "pause-amd64". split; [now left|].
    exists "gcr.io/google_containers/", "". reflexivity.
  - exists filtered, s1. split; [exact E|]. split; [exact Hout|].
    exact (Hcmp [] s1).
Defined.

(** ** One pass and the loop of [main] *)

Lemma fetchBoth_eq config nodeFlag env pl perr cli err containers err' s :
  PodsList env = (Some pl, perr) ->
  NewEnvClient env = (Some cli, err) ->
  ContainerList cli (runtime s) = (containers, err') ->
  fetchBoth config nodeFlag env s =
  (Ok (podContainerIDs nodeFlag (Items pl),
       filter (fun c => negb (whitelisted config c)) containers),
   {| runtime := runtime s;
      trace := (trace s ++ errLog perr "Error in listing pods:"
                        ++ errLog err "Cannot connect to Docker daemon."
                        ++ errLog err' "No running containers found in Docker.")%list |}).
Proof.
  intros Hpods Hcli Hlist. unfold fetchBoth.
  rewrite (bind_ok _ (getPodContainers_eq nodeFlag env s Hpods)).
  erewrite bind_ok
    by (eapply getDockerContainers_eq; [exact Hcli | exact Hlist]).
  unfold ret. simpl. now rewrite <- app_assoc.
Qed.

(** With both clients at hand a pass completes, in either mode. *)
Lemma executeCheck_completes config nodeFlag modeFlag env pl perr cli err
    containers err' s :
  PodsList env = (Some pl, perr) ->
  NewEnvClient env = (Some cli, err) ->
  ContainerList cli (runtime s) = (containers, err') ->
  exists s', executeCheck config nodeFlag modeFlag env s = (Ok tt, s').
Proof.
  intros Hpods Hcli Hlist. unfold executeCheck.
  rewrite (bind_ok _ (fetchBoth_eq config nodeFlag env s Hpods Hcli Hlist)).
  rewrite (bind_ok _ (compare_eq _ _ _)).
  destruct (0 <? length _)%nat.
  - destruct (String.eqb_spec modeFlag "remove") as [->|Hmode].
    + eexists. apply (dispatch_remove config env _ _ Hcli).
    + eexists. apply dispatch_report. exact Hmode.
  - eexists. reflexivity.
Qed.

Lemma main_step config nodeFlag modeFlag envs n s s' :
  executeCheck config nodeFlag modeFlag (envs O) s = (Ok tt, s') ->
  main config nodeFlag modeFlag envs (S n) s =
  main config nodeFlag modeFlag (fun i => envs (S i)) n
    {| runtime := runtime s';
       trace := (trace s' ++
                 [ESleep (time.mul (time.Duration (CheckInterval (Config_Timing config)))
                                   time.Second)])%list |}.
Proof.
  intros H. simpl. rewrite (bind_ok _ H). reflexivity.
Qed.

(** With nothing on the orchestrator side, nothing is matched. *)
Lemma isOrphan_nil c : isOrphan [] c = true.
Proof. reflexivity. Qed.

Lemma filter_all {A} (p : A -> bool) l : (forall a, p a = true) -> filter p l = l.
Proof.
  intros H. induction l as [|a l IH]; simpl; [reflexivity|].
  now rewrite H, IH.
Qed.

(** ** Failure of the orchestrator call *)

(** C2, as the specification words it, fails in the part that says the
    pass degrades to zero orphans: the pods call fails, the fetcher logs
    it and delivers the empty list, the pass completes, and the one
    container the daemon runs is reported as dangling. *)
Lemma pods_failure_counterexample :
  let c := {| ID := "abc123"; Image := "nginx"; ImageID := "sha256:1"; Created := 5 |} in
  let env := {| NewEnvClient := (Some obligingClient, None);
                PodsList := (Some {| Items := [] |}, Some "connection refused") |} in
  let s := {| runtime := [c]; trace := [] |} in
  getPodContainers "node-1" env s =
    (Ok [], {| runtime := [c];
               trace := [ELog [Str "Error in listing pods:";
                               Str "connection refused"]] |}) /\
  fst (fetchBoth config_default "node-1" env s) = Ok ([], [c]) /\
  fst (compareContainerGroups [c] [] s) = Ok [c] /\
  exists s',
    executeCheck config_default "node-1" "watch" env s = (Ok tt, s') /\
    sent (trace s') = ["Dangling container found: abc123 (sha256:1)"].
Proof.
  intros c env s.
  split; [reflexivity|]. split; [reflexivity|]. split; [reflexivity|].
  exists (snd (executeCheck config_default "node-1" "watch" env s)).
  split; vm_compute; reflexivity.
Qed.

(** C2, amended: when the pods call fails, returning an error and an
    empty pod list, [getPodContainers] logs the error and delivers the
    empty identifier list; with a runtime client at hand the pass then
    completes without a panic, every container of the whitelist-filtered
    runtime inventory being an orphan of that pass, and [main] sleeps
    and goes on to the next pass. *)
Theorem pods_failure_degrades (config : Config) (nodeFlag modeFlag : string)
    (env : Env) (pl : PodList) (e : string) (s : State) :
  PodsList env = (Some pl, Some e) ->
  Items pl = [] ->
  getPodContainers nodeFlag env s =
    (Ok [], {| runtime := runtime s;
               trace := (trace s ++ [ELog [Str "Error in listing pods:"; Str e]])%list |}) /\
  forall cli err containers err',
    NewEnvClient env = (Some cli, err) ->
    ContainerList cli (runtime s) = (containers, err') ->
    exists filtered s1 s2 s3,
      fetchBoth config nodeFlag env s = (Ok ([], filtered), s1) /\
      compareContainerGroups filtered [] s1 = (Ok filtered, s2) /\
      executeCheck config nodeFlag modeFlag env s = (Ok tt, s3) /\
      forall envs n,
        envs O = env ->
        main config nodeFlag modeFlag envs (S n) s =
        main config nodeFlag modeFlag (fun i => envs (S i)) n
          {| runtime := runtime s3;
             trace := (trace s3 ++
                       [ESleep (time.mul
                                  (time.Duration (CheckInterval (Config_Timing config)))
                                  time.Second)])%list |}.
Proof.
  intros Hpods Hitems. split.
  - rewrite (getPodContainers_eq nodeFlag env s Hpods), Hitems. reflexivity.
  - intros cli err containers err' Hcli Hlist.
    destruct (executeCheck_completes config nodeFlag modeFlag env s Hpods Hcli Hlist)
      as [s3 Hpass].
    eexists _, _, _, s3. split; [|split; [|split]].
    + rewrite (fetchBoth_eq config nodeFlag env s Hpods Hcli Hlist), Hitems.
      reflexivity.
    + rewrite compare_eq. rewrite (filter_all _ _ isOrphan_nil). reflexivity.
    + exact Hpass.
    + intros envs n Henv. apply main_step. rewrite Henv. exact Hpass.
Qed.

Lemma pods_failure_degrades_witness :
  let c := {| ID := "abc123"; Image := "nginx"; ImageID := "sha256:1"; Created := 5 |} in
  let env := {| NewEnvClient := (Some obligingClient, None);
                PodsList := (Some {| Items := [] |}, Some "connection refused") |} in
  let s := {| runtime := [c]; trace := [] |} in
  exists s3,
    executeCheck config_default "node-1" "watch" env s = (Ok tt, s3) /\
    main config_default "node-1" "watch" (fun _ => env) 2 s =
    main config_default "node-1" "watch" (fun _ => env) 1
      {| runtime := runtime s3;
         trace := (trace s3 ++ [ESleep 90000000000%Z])%list |}.
Proof.
  intros c env s.
  destruct (pods_failure_degrades config_default "node-1" "watch" env
              (pl := {| Items := [] |}) (e := "connection refused") s
              eq_refl eq_refl) as [_ H].
  destruct (H obligingClient None [c] None eq_refl eq_refl)
    as (filtered & s1 & s2 & s3 & _ & _ & Hpass & Hmain).
  exists s3. split; [exact Hpass|].
  exact (Hmain (fun _ => env) 1%nat eq_refl).
Defined.

(** ** Where a pass panics

    The hypotheses of the statements above on the two clients are
    needed: a nil pod list stops [getPodContainers], and a nil runtime
    client stops the dispatcher at its first [ContainerStop]. *)


Lemma dispatch_remove_nil_client config env err c orphans s :
  NewEnvClient env = (None, err) ->
  exists s',
    removeOrReportOrphanContainers config "remove" env (c :: orphans) s =
      (Panic nil_dereference, s') /\
    runtime s' = runtime s /\
    stops (trace s') = stops (trace s) /\
    sent (trace s') = sent (trace s).
Proof.
  intros Hcli. unfold removeOrReportOrphanContainers. rewrite Hcli.
  rewrite (bind_ok _ (logIfErr_eq _ _ _)).
  rewrite String.eqb_refl. simpl.
  unfold bind, Println, emit, panic. simpl.
  eexists. split; [reflexivity|]. simpl. split; [reflexivity|].
  rewrite !stops_app, !sent_app, stops_errLog, sent_errLog. simpl.
  now rewrite !app_nil_r.
Qed.

(** * Further properties of the code *)

(** ** Substrings *)

Lemma string_app_assoc (a b c : string) : (a ++ b) ++ c = a ++ b ++ c.
Proof. induction a as [|x a IH]; simpl; [reflexivity | now rewrite IH]. Qed.

Lemma string_app_nil_r (a : string) : a ++ "" = a.
Proof. induction a as [|x a IH]; simpl; [reflexivity | now rewrite IH]. Qed.

Lemma is_substring_refl s : strings.is_substring s s.
Proof. exists "", "". simpl. now rewrite string_app_nil_r. Qed.

Lemma is_substring_trans a b c :
  strings.is_substring a b -> strings.is_substring b c -> strings.is_substring a c.
Proof.
  intros (p1 & q1 & ->) (p2 & q2 & ->).
  exists (p2 ++ p1), (q1 ++ q2). now rewrite !string_app_assoc.
Qed.

Lemma stringInSlice_app a K1 K2 :
  stringInSlice a (K1 ++ K2)%list = (stringInSlice a K1 || stringInSlice a K2)%bool.
Proof. now rewrite !stringInSlice_existsb, existsb_app. Qed.

Lemma stringInSlice_substring a a' K :
  strings.is_substring a a' -> stringInSlice a' K = true -> stringInSlice a K = true.
Proof.
  intros Hsub H. apply stringInSlice_spec in H. destruct H as (b & Hb & H).
  apply stringInSlice_spec. exists b. split; [exact Hb|].
  exact (is_substring_trans Hsub H).
Qed.

Lemma filter_filter_and {A} (p q : A -> bool) l :
  filter q (filter p l) = filter (fun a => (p a && q a)%bool) l.
Proof.
  induction l as [|a l IH]; simpl; [reflexivity|].
  destruct (p a) eqn:Hp; simpl; [|exact IH].
  destruct (q a); simpl; now rewrite IH.
Qed.

(** ** More on the reconciler *)

(** X1: [compareContainerGroups] returns, in the order of the runtime
    inventory and with its repetitions, exactly the containers whose
    identifier occurs in no orchestrator identifier; it writes one
    "Orphan Container Found:" line per orphan, in the same order, and
    leaves the daemon alone. *)
Theorem compare_in_order (R : list Container) (K : list string) (s : State) :
  let orphans :=
    filter (fun c => negb (existsb (fun k => strings.Contains k (ID c)) K)) R in
  compareContainerGroups R K s =
  (Ok orphans,
   {| runtime := runtime s;
      trace := (trace s ++
                map (fun c => ELog [Str "Orphan Container Found:"; Str (ID c);
                                    Str "("; Str (Image c); Str ") Age:";
                                    Since (Created c)]) orphans)%list |}).
Proof.
  intros orphans. rewrite compare_eq.
  assert (E : filter (isOrphan K) R = orphans).
  { apply filter_ext. intros c. unfold isOrphan.
    now rewrite stringInSlice_existsb. }
  now rewrite E.
Qed.

(** X2: with no orchestrator identifier at all, the whole runtime
    inventory comes back as orphans. *)
Theorem compare_no_identifiers (R : list Container) (s : State) :
  fst (compareContainerGroups R [] s) = Ok R.
Proof.
  rewrite compare_eq. simpl. now rewrite (filter_all _ _ isOrphan_nil).
Qed.

(** X3: a container whose identifier is itself in the orchestrator list
    is never an orphan. *)
Theorem compare_exact_match (R : list Container) (K : list string)
    (c : Container) (s : State) :
  In (ID c) K ->
  exists orphans, fst (compareContainerGroups R K s) = Ok orphans /\ ~ In c orphans.
Proof.
  intros Hin. rewrite compare_eq. eexists. split; [reflexivity|].
  rewrite filter_In. intros [_ H].
  apply isOrphan_spec in H. apply H.
  exists (ID c). split; [exact Hin | apply is_substring_refl].
Qed.

Lemma compare_exact_match_witness :
  let c := {| ID := "abc123"; Image := "nginx"; ImageID := "sha256:1"; Created := 5 |} in
  let d := {| ID := "def456"; Image := "redis"; ImageID := "sha256:2"; Created := 6 |} in
  exists orphans,
    fst (compareContainerGroups [c; d] ["abc123"] idle) = Ok orphans /\ ~ In c orphans.
Proof.
  intros c d. apply (@compare_exact_match [c; d] ["abc123"] c idle).
  now left.
Defined.

(** X4: matching is closed under truncation of the runtime identifier:
    when a container of the inventory is matched (it is not among the
    orphans), every container whose identifier is a substring of that
    container's identifier is matched as well. *)
Theorem compare_truncated_id (R : list Container) (K : list string)
    (c c' : Container) (s : State) :
  In c' R ->
  strings.is_substring (ID c) (ID c') ->
  exists orphans,
    fst (compareContainerGroups R K s) = Ok orphans /\
    (~ In c' orphans -> ~ In c orphans).
Proof.
  intros Hin Hsub. rewrite compare_eq. eexists. split; [reflexivity|].
  rewrite !filter_In. unfold isOrphan. intros Hc' [_ Hc].
  apply Hc'. split; [exact Hin|].
  destruct (stringInSlice (ID c') K) eqn:E; [|reflexivity].
  rewrite (stringInSlice_substring _ Hsub E) in Hc. discriminate.
Qed.

Lemma compare_truncated_id_witness :
  let full := {| ID := "abc123def456"; Image := "nginx"; ImageID := "sha256:1";
                 Created := 5 |} in
  let short := {| ID := "abc123"; Image := "nginx"; ImageID := "sha256:1";
                  Created := 5 |} in
  exists orphans,
    fst (compareContainerGroups [full; short] ["abc123def456"] idle) = Ok orphans /\
    ~ In short orphans.
Proof.
  intros full short.
  destruct (@compare_truncated_id [full; short] ["abc123def456"] short full idle)
    as (orphans & E & H).
  - now left.
  - exists "", "def456". reflexivity.
  - exists orphans. split; [exact E|]. apply H.
    vm_compute in E. injection E as <-. intros [].
Defined.

(** X5: identifiers can be taken into account in two rounds: comparing
    against [K1 ++ K2] gives what comparing the orphans of [K1] against
    [K2] gives; so a longer orchestrator list never adds an orphan. *)
Theorem compare_more_identifiers (R : list Container) (K1 K2 : list string)
    (s s' s'' : State) :
  exists o1 o12,
    fst (compareContainerGroups R K1 s) = Ok o1 /\
    fst (compareContainerGroups R (K1 ++ K2)%list s') = Ok o12 /\
    fst (compareContainerGroups o1 K2 s'') = Ok o12 /\
    incl o12 o1.
Proof.
  assert (E : filter (isOrphan K2) (filter (isOrphan K1) R) =
              filter (isOrphan (K1 ++ K2)%list) R).
  { rewrite filter_filter_and. apply filter_ext. intros c.
    unfold isOrphan. rewrite stringInSlice_app. now rewrite negb_orb. }
  exists (filter (isOrphan K1) R), (filter (isOrphan (K1 ++ K2)%list) R).
  rewrite !compare_eq. simpl. repeat split.
  - now rewrite E.
  - rewrite <- E. apply incl_filter.
Qed.

(** X6: the inventory can be compared in pieces: the orphans of
    [R1 ++ R2] are the orphans of [R1] followed by those of [R2]. *)
Theorem compare_app (R1 R2 : list Container) (K : list string) (s s1 s2 : State) :
  exists o1 o2,
    fst (compareContainerGroups R1 K s1) = Ok o1 /\
    fst (compareContainerGroups R2 K s2) = Ok o2 /\
    fst (compareContainerGroups (R1 ++ R2)%list K s) = Ok (o1 ++ o2)%list.
Proof.
  rewrite !compare_eq. eexists _, _. repeat split. simpl.
  now rewrite filter_app.
Qed.

(** X7: comparing the orphan set itself against the same identifiers
    gives it back unchanged. *)
Theorem compare_idempotent (R : list Container) (K : list string) (s s' : State) :
  exists orphans,
    fst (compareContainerGroups R K s) = Ok orphans /\
    fst (compareContainerGroups orphans K s') = Ok orphans.
Proof.
  exists (filter (isOrphan K) R). rewrite !compare_eq. simpl.
  split; [reflexivity|].
  rewrite filter_filter_and. f_equal. apply filter_ext.
  intros c. now rewrite andb_diag.
Qed.

(** X8: when the identifiers of the runtime inventory are pairwise
    distinct, so are those of the orphan set. *)
Theorem compare_unique_ids (R : list Container) (K : list string) (s : State) :
  NoDup (map ID R) ->
  exists orphans,
    fst (compareContainerGroups R K s) = Ok orphans /\ NoDup (map ID orphans).
Proof.
  intros Hnd. rewrite compare_eq. eexists. split; [reflexivity|].
  induction R as [|c R IH]; simpl; [constructor|].
  inversion Hnd as [|x l Hnotin Hrest]; subst.
  destruct (isOrphan K c); [|now apply IH].
  simpl. constructor; [|now apply IH].
  intros Hin. apply Hnotin. apply in_map_iff in Hin.
  destruct Hin as (c' & Hid & Hc'). apply filter_In in Hc'.
  apply in_map_iff. exists c'. tauto.
Qed.

Lemma compare_unique_ids_witness :
  let c := {| ID := "abc123"; Image := "nginx"; ImageID := "sha256:1"; Created := 5 |} in
  let d := {| ID := "def456"; Image := "redis"; ImageID := "sha256:2"; Created := 6 |} in
  exists orphans,
    fst (compareContainerGroups [c; d] [] idle) = Ok orphans /\ NoDup (map ID orphans).
Proof.
  intros c d. apply (@compare_unique_ids [c; d] [] idle).
  simpl. constructor.
  - intros [H|[]]. discriminate.
  - constructor; [intros [] | constructor].
Defined.

(** X9: every container of the inventory is either returned as an orphan
    or matched by the membership test, never both: the two counts add up
    to the size of the inventory. *)
Theorem compare_partition (R : list Container) (K : list string) (s : State) :
  exists orphans,
    fst (compareContainerGroups R K s) = Ok orphans /\
    (length orphans
       + length (filter (fun c => stringInSlice (ID c) K) R) = length R)%nat.
Proof.
  rewrite compare_eq. eexists. split; [reflexivity|].
  induction R as [|c R IH]; simpl; [reflexivity|].
  unfold isOrphan at 1. destruct (stringInSlice (ID c) K); simpl; lia.
Qed.

(** ** Frames of the combinators *)

Lemma emits_only_ret allowed {A} (a : A) : emits_only allowed (ret a).
Proof. intros s. exists []. simpl. now rewrite app_nil_r. Qed.

Lemma emits_only_panic allowed {A} msg : emits_only allowed (@panic A msg).
Proof. intros s. exists []. simpl. now rewrite app_nil_r. Qed.

Lemma emits_only_emit (allowed : Effect -> bool) e :
  allowed e = true -> emits_only allowed (emit e).
Proof. intros H s. exists [e]. simpl. now rewrite H. Qed.

Lemma emits_only_bind allowed {A B} (m : M A) (f : A -> M B) :
  emits_only allowed m -> (forall a, emits_only allowed (f a)) ->
  emits_only allowed (bind m f).
Proof.
  intros Hm Hf s. unfold bind.
  destruct (Hm s) as (t1 & E1 & H1).
  destruct (m s) as [[a|msg] s1]; simpl in E1.
  - destruct (Hf a s1) as (t2 & E2 & H2).
    exists (t1 ++ t2)%list. rewrite E2, E1, app_assoc, forallb_app, H1, H2.
    now split.
  - exists t1. now split.
Qed.

Lemma emits_only_forRange allowed {A B} (body : B -> A -> M B) l :
  (forall acc a, emits_only allowed (body acc a)) ->
  forall acc, emits_only allowed (forRange l body acc).
Proof.
  intros Hbody. induction l as [|a l IH]; intros acc; simpl.
  - apply emits_only_ret.
  - apply emits_only_bind; [apply Hbody | exact IH].
Qed.

Lemma emits_only_weaken (p q : Effect -> bool) {A} (m : M A) :
  (forall e, p e = true -> q e = true) -> emits_only p m -> emits_only q m.
Proof.
  intros Hpq Hm s. destruct (Hm s) as (t & E & H). exists t. split; [exact E|].
  rewrite forallb_forall in *. auto.
Qed.

Lemma keeps_runtime_ret {A} (a : A) : keeps_runtime (ret a).
Proof. intros s. reflexivity. Qed.

Lemma keeps_runtime_panic {A} msg : keeps_runtime (@panic A msg).
Proof. intros s. reflexivity. Qed.

Lemma keeps_runtime_emit e : keeps_runtime (emit e).
Proof. intros s. reflexivity. Qed.

Lemma keeps_runtime_bind {A B} (m : M A) (f : A -> M B) :
  keeps_runtime m -> (forall a, keeps_runtime (f a)) -> keeps_runtime (bind m f).
Proof.
  intros Hm Hf s. unfold bind. specialize (Hm s).
  destruct (m s) as [[a|msg] s1]; simpl in Hm.
  - now rewrite Hf.
  - exact Hm.
Qed.

Lemma keeps_runtime_forRange {A B} (body : B -> A -> M B) l :
  (forall acc a, keeps_runtime (body acc a)) ->
  forall acc, keeps_runtime (forRange l body acc).
Proof.
  intros Hbody. induction l as [|a l IH]; intros acc; simpl.
  - apply keeps_runtime_ret.
  - apply keeps_runtime_bind; [apply Hbody | exact IH].
Qed.

Lemma emits_only_logIfErr allowed err what :
  (forall ops, allowed (ELog ops) = true) -> emits_only allowed (logIfErr err what).
Proof.
  intros H. destruct err; simpl.
  - apply emits_only_emit, H.
  - apply emits_only_ret.
Qed.

Lemma keeps_runtime_logIfErr err what : keeps_runtime (logIfErr err what).
Proof. destruct err as [e|]; intros s; reflexivity. Qed.

Lemma emits_only_callContainerList allowed cli :
  emits_only allowed (callContainerList cli).
Proof.
  destruct cli as [c|]; simpl; [|apply emits_only_panic].
  intros s. exists []. simpl. now rewrite app_nil_r.
Qed.

Lemma keeps_runtime_callContainerList cli : keeps_runtime (callContainerList cli).
Proof. destruct cli as [c|]; intros s; reflexivity. Qed.

Lemma emits_only_callContainerStop (allowed : Effect -> bool) cli id timeout :
  allowed (EContainerStop id timeout) = true ->
  emits_only allowed (callContainerStop cli id timeout).
Proof.
  intros H. destruct cli as [c|]; simpl; [|apply emits_only_panic].
  intros s. exists [EContainerStop id timeout].
  destruct (ContainerStop c id timeout (runtime s)). simpl. now rewrite H.
Qed.

(** ** Frames of the program *)

Lemma emits_only_getPodContainers allowed nodeFlag env :
  (forall ops, allowed (ELog ops) = true) ->
  emits_only allowed (getPodContainers nodeFlag env).
Proof.
  intros H. unfold getPodContainers. destruct (PodsList env) as [[pl|] err].
  - apply emits_only_bind; [now apply emits_only_logIfErr|].
    intros _. apply emits_only_ret.
  - apply emits_only_bind; [now apply emits_only_logIfErr|].
    intros _. apply emits_only_panic.
Qed.

Lemma keeps_runtime_getPodContainers nodeFlag env :
  keeps_runtime (getPodContainers nodeFlag env).
Proof.
  unfold getPodContainers. destruct (PodsList env) as [[pl|] err];
    (apply keeps_runtime_bind; [apply keeps_runtime_logIfErr|]);
    intros _; [apply keeps_runtime_ret | apply keeps_runtime_panic].
Qed.

Lemma emits_only_getDockerContainers allowed config env :
  (forall ops, allowed (ELog ops) = true) ->
  emits_only allowed (getDockerContainers config env).
Proof.
  intros H. unfold getDockerContainers. destruct (NewEnvClient env) as [cli err].
  apply emits_only_bind; [now apply emits_only_logIfErr|]. intros _.
  apply emits_only_bind; [apply emits_only_callContainerList|].
  intros [containers err']. 
  apply emits_only_bind; [now apply emits_only_logIfErr|]. intros _.
  apply emits_only_ret.
Qed.

Lemma keeps_runtime_getDockerContainers config env :
  keeps_runtime (getDockerContainers config env).
Proof.
  unfold getDockerContainers. destruct (NewEnvClient env) as [cli err].
  apply keeps_runtime_bind; [apply keeps_runtime_logIfErr|]. intros _.
  apply keeps_runtime_bind; [apply keeps_runtime_callContainerList|].
  intros [containers err'].
  apply keeps_runtime_bind; [apply keeps_runtime_logIfErr|]. intros _.
  apply keeps_runtime_ret.
Qed.

Lemma emits_only_compare allowed R K :
  (forall ops, allowed (ELog ops) = true) ->
  emits_only allowed (compareContainerGroups R K).
Proof.
  intros H. unfold compareContainerGroups. apply emits_only_forRange.
  intros acc c. destruct (negb _).
  - apply emits_only_bind; [apply emits_only_emit, H|].
    intros _. apply emits_only_ret.
  - apply emits_only_ret.
Qed.

Lemma keeps_runtime_compare R K : keeps_runtime (compareContainerGroups R K).
Proof.
  unfold compareContainerGroups. apply keeps_runtime_forRange.
  intros acc c. destruct (negb _).
  - apply keeps_runtime_bind; [apply keeps_runtime_emit|].
    intros _. apply keeps_runtime_ret.
  - apply keeps_runtime_ret.
Qed.

Lemma emits_only_fetchBoth allowed config nodeFlag env :
  (forall ops, allowed (ELog ops) = true) ->
  emits_only allowed (fetchBoth config nodeFlag env).
Proof.
  intros H. unfold fetchBoth.
  apply emits_only_bind; [now apply emits_only_getPodContainers|]. intros k.
  apply emits_only_bind; [now apply emits_only_getDockerContainers|]. intros d.
  apply emits_only_ret.
Qed.

Lemma keeps_runtime_fetchBoth config nodeFlag env :
  keeps_runtime (fetchBoth config nodeFlag env).
Proof.
  unfold fetchBoth.
  apply keeps_runtime_bind; [apply keeps_runtime_getPodContainers|]. intros k.
  apply keeps_runtime_bind; [apply keeps_runtime_getDockerContainers|]. intros d.
  apply keeps_runtime_ret.
Qed.

(** The dispatcher: every effect but a sleep in any mode; nothing but
    log lines and messages, and the daemon untouched, outside "remove". *)
Lemma emits_only_dispatch allowed config modeFlag env orphans :
  (forall ops, allowed (ELog ops) = true) ->
  (forall msg, allowed (EChanSend msg) = true) ->
  (modeFlag = "remove" -> forall id d, allowed (EContainerStop id d) = true) ->
  emits_only allowed (removeOrReportOrphanContainers config modeFlag env orphans).
Proof.
  intros Hlog Hsend Hstop. unfold removeOrReportOrphanContainers.
  destruct (NewEnvClient env) as [cli err].
  apply emits_only_bind; [now apply emits_only_logIfErr|]. intros _.
  apply emits_only_forRange. intros [] c.
  destruct (String.eqb_spec modeFlag "remove") as [Hmode|Hmode].
  - apply emits_only_bind; [apply emits_only_emit, Hlog|]. intros _.
    apply emits_only_bind; [apply emits_only_callContainerStop; now apply Hstop|].
    intros _. apply emits_only_emit, Hsend.
  - apply emits_only_bind; [apply emits_only_emit, Hlog|]. intros _.
    apply emits_only_emit, Hsend.
Qed.

Lemma keeps_runtime_dispatch config modeFlag env orphans :
  modeFlag <> "remove" ->
  keeps_runtime (removeOrReportOrphanContainers config modeFlag env orphans).
Proof.
  intros Hmode s. rewrite (dispatch_report config env orphans s Hmode). reflexivity.
Qed.

Lemma emits_only_executeCheck allowed config nodeFlag modeFlag env :
  (forall ops, allowed (ELog ops) = true) ->
  (forall msg, allowed (EChanSend msg) = true) ->
  (modeFlag = "remove" -> forall id d, allowed (EContainerStop id d) = true) ->
  emits_only allowed (executeCheck config nodeFlag modeFlag env).
Proof.
  intros Hlog Hsend Hstop. unfold executeCheck.
  apply emits_only_bind; [now apply emits_only_fetchBoth|]. intros [k d].
  apply emits_only_bind; [now apply emits_only_compare|]. intros orphans.
  destruct (0 <? length orphans)%nat.
  - now apply emits_only_dispatch.
  - apply emits_only_emit, Hlog.
Qed.

Lemma keeps_runtime_executeCheck config nodeFlag modeFlag env :
  modeFlag <> "remove" ->
  keeps_runtime (executeCheck config nodeFlag modeFlag env).
Proof.
  intros Hmode. unfold executeCheck.
  apply keeps_runtime_bind; [apply keeps_runtime_fetchBoth|]. intros [k d].
  apply keeps_runtime_bind; [apply keeps_runtime_compare|]. intros orphans.
  destruct (0 <? length orphans)%nat.
  - now apply keeps_runtime_dispatch.
  - apply keeps_runtime_emit.
Qed.

Lemma stops_of_notStop t : forallb notStop t = true -> stops t = [].
Proof.
  induction t as [|e t IH]; simpl; [reflexivity|].
  intros H. apply andb_prop in H. destruct H as [He Ht].
  destruct e; simpl in *; try discriminate; auto.
Qed.

Lemma sleeps_of_notSleep t : forallb notSleep t = true -> sleeps t = [].
Proof.
  induction t as [|e t IH]; simpl; [reflexivity|].
  intros H. apply andb_prop in H. destruct H as [He Ht].
  destruct e; simpl in *; try discriminate; auto.
Qed.

Lemma sleeps_app t1 t2 : sleeps (t1 ++ t2)%list = (sleeps t1 ++ sleeps t2)%list.
Proof. unfold sleeps. apply flat_map_app. Qed.

(** ** More on the runtime inventory fetcher *)

(** X10: with a runtime client at hand, [getDockerContainers] delivers
    the containers the daemon lists, in the daemon's order, without those
    whose image reference contains a whitelist entry: a listed container
    is delivered if and only if no whitelist entry is a substring of its
    image reference. *)
Theorem docker_inventory_iff (config : Config) (env : Env) (cli : Client)
    (err err' : option string) (containers : list Container) (s : State) :
  NewEnvClient env = (Some cli, err) ->
  ContainerList cli (runtime s) = (containers, err') ->
  exists filtered,
    fst (getDockerContainers config env s) = Ok filtered /\
    filtered =
      filter (fun c => negb (existsb (fun image => strings.Contains (Image c) image)
                                     (Images (Config_Whitelist config))))
             containers /\
    forall c, In c filtered <->
              In c containers /\
              ~ exists image, In image (Images (Config_Whitelist config)) /\
                              strings.is_substring image (Image c).
Proof.
  intros Hcli Hlist.
  rewrite (getDockerContainers_eq config env s Hcli Hlist). simpl.
  eexists. split; [reflexivity|]. split.
  - apply filter_ext. intros c. now rewrite whitelisted_existsb.
  - intros c. rewrite filter_In, negb_true_iff, <- not_true_iff_false.
    now rewrite whitelisted_spec.
Qed.

Lemma docker_inventory_iff_witness :
  let pause := {| ID := "abc123"; Image := "gcr.io/google_containers/pause-amd64";
                  ImageID := "sha256:1"; Created := 5 |} in
  let web := {| ID := "def456"; Image := "nginx"; ImageID := "sha256:2"; Created := 6 |} in
  let config := {| Config_Timing := {| CheckInterval := 90; StopTimeout := 30 |};
                   Config_Whitelist := {| Images := ["pause-amd64"; "containerchk"] |} |} in
  let env := {| NewEnvClient := (Some obligingClient, None); PodsList := (None, None) |} in
  fst (getDockerContainers config env {| runtime := [pause; web]; trace := [] |})
  = Ok [web].
Proof.
  intros pause web config env.
  destruct (@docker_inventory_iff config env obligingClient None None [pause; web]
              {| runtime := [pause; web]; trace := [] |} eq_refl eq_refl)
    as (filtered & E & Hf & _).
  rewrite E, Hf. reflexivity.
Defined.

(** X11: with an empty whitelist nothing is filtered: the inventory is
    the daemon's list as it came. *)
Theorem docker_empty_whitelist (config : Config) (env : Env) (cli : Client)
    (err err' : option string) (containers : list Container) (s : State) :
  NewEnvClient env = (Some cli, err) ->
  ContainerList cli (runtime s) = (containers, err') ->
  Images (Config_Whitelist config) = [] ->
  fst (getDockerContainers config env s) = Ok containers.
Proof.
  intros Hcli Hlist Hempty.
  rewrite (getDockerContainers_eq config env s Hcli Hlist). simpl.
  f_equal. apply filter_all. intros c.
  unfold whitelisted. now rewrite Hempty.
Qed.

Lemma docker_empty_whitelist_witness :
  let web := {| ID := "def456"; Image := "nginx"; ImageID := "sha256:2"; Created := 6 |} in
  let env := {| NewEnvClient := (Some obligingClient, None); PodsList := (None, None) |} in
  fst (getDockerContainers config_default env {| runtime := [web]; trace := [] |})
  = Ok [web].
Proof.
  intros web env.
  exact (@docker_empty_whitelist config_default env obligingClient None None [web]
           {| runtime := [web]; trace := [] |} eq_refl eq_refl eq_refl).
Defined.

(** X12: an empty string among the whitelist entries matches every image
    reference: the inventory is then empty, whatever the daemon lists. *)
Theorem docker_empty_rule (config : Config) (env : Env) (cli : Client)
    (err err' : option string) (containers : list Container) (s : State) :
  NewEnvClient env = (Some cli, err) ->
  ContainerList cli (runtime s) = (containers, err') ->
  In "" (Images (Config_Whitelist config)) ->
  fst (getDockerContainers config env s) = Ok [].
Proof.
  intros Hcli Hlist Hin.
  rewrite (getDockerContainers_eq config env s Hcli Hlist). simpl. f_equal.
  assert (Hall : forall c, whitelisted config c = true).
  { intros c. rewrite whitelisted_existsb. apply existsb_exists.
    exists "". split; [exact Hin | apply Contains_empty]. }
  induction containers as [|c l IH] in |- *; simpl; [reflexivity|].
  now rewrite Hall.
Qed.

Lemma docker_empty_rule_witness :
  let web := {| ID := "def456"; Image := "nginx"; ImageID := "sha256:2"; Created := 6 |} in
  let config := {| Config_Timing := {| CheckInterval := 90; StopTimeout := 30 |};
                   Config_Whitelist := {| Images := ["pause-amd64"; ""] |} |} in
  let env := {| NewEnvClient := (Some obligingClient, None); PodsList := (None, None) |} in
  fst (getDockerContainers config env {| runtime := [web]; trace := [] |}) = Ok [].
Proof.
  intros web config env.
  apply (@docker_empty_rule config env obligingClient None None [web]
           {| runtime := [web]; trace := [] |} eq_refl eq_refl).
  simpl. auto.
Defined.

(** X13: when the daemon cannot be listed (an error and no container),
    [getDockerContainers] completes with the empty inventory, having
    written one "No running containers found in Docker." line, and the
    daemon is as before. *)
Theorem docker_list_failure (config : Config) (env : Env) (cli : Client)
    (e : string) (s : State) :
  NewEnvClient env = (Some cli, None) ->
  ContainerList cli (runtime s) = ([], Some e) ->
  getDockerContainers config env s =
  (Ok [],
   {| runtime := runtime s;
      trace := (trace s ++
                [ELog [Str "No running containers found in Docker."; Str e]])%list |}).
Proof.
  intros Hcli Hlist.
  now rewrite (getDockerContainers_eq config env s Hcli Hlist).
Qed.

(** A daemon connection that cannot reach the daemon. *)
Lemma docker_list_failure_witness :
  let down := {| ContainerList := fun _ => ([], Some "Cannot connect to the Docker daemon");
                 ContainerStop := fun _ _ rt => (rt, Some "Cannot connect to the Docker daemon") |} in
  let env := {| NewEnvClient := (Some down, None); PodsList := (None, None) |} in
  getDockerContainers config_default env idle =
  (Ok [],
   {| runtime := [];
      trace := [ELog [Str "No running containers found in Docker.";
                      Str "Cannot connect to the Docker daemon"]] |}).
Proof.
  intros down env.
  exact (@docker_list_failure config_default env down
           "Cannot connect to the Docker daemon" idle eq_refl eq_refl).
Defined.

(** X14: for every answer of the outside world, nil pointers included,
    the two fetchers and the reconciler write log lines and nothing
    else (no stop call, no message, no sleep), and leave the daemon
    as it was. *)
Theorem fetchers_only_log (config : Config) (nodeFlag : string) (env : Env)
    (R : list Container) (K : list string) :
  (emits_only isLog (getPodContainers nodeFlag env) /\
   keeps_runtime (getPodContainers nodeFlag env)) /\
  (emits_only isLog (getDockerContainers config env) /\
   keeps_runtime (getDockerContainers config env)) /\
  (emits_only isLog (compareContainerGroups R K) /\
   keeps_runtime (compareContainerGroups R K)).
Proof.
  repeat split.
  - now apply emits_only_getPodContainers.
  - apply keeps_runtime_getPodContainers.
  - now apply emits_only_getDockerContainers.
  - apply keeps_runtime_getDockerContainers.
  - now apply emits_only_compare.
  - apply keeps_runtime_compare.
Qed.

(** ** More on the orchestrator inventory fetcher *)

Lemma drop_app p t : strings.drop (String.length p) (p ++ t) = t.
Proof. induction p as [|a p IH]; simpl; [now destruct t | exact IH]. Qed.

Lemma string_app_inv_head p t t' : p ++ t = p ++ t' -> t = t'.
Proof.
  induction p as [|a p IH]; simpl; intros H; [exact H|].
  inversion H. auto.
Qed.

Lemma TrimPrefix_cases s p id :
  strings.TrimPrefix s p = id <->
  s = p ++ id \/ (strings.HasPrefix s p = false /\ s = id).
Proof.
  unfold strings.TrimPrefix. destruct (strings.HasPrefix s p) eqn:E.
  - apply HasPrefix_spec in E. destruct E as [t ->]. rewrite drop_app.
    split.
    + intros ->. now left.
    + intros [H|[H _]]; [now apply string_app_inv_head in H | discriminate].
  - split.
    + intros ->. now right.
    + intros [->|[_ H]]; [|exact H].
      rewrite HasPrefix_intro in E. discriminate.
Qed.

Lemma status_loop (f : ContainerStatus -> string) statuses : forall containerIDs,
  fold_left (fun containerIDs status => (containerIDs ++ [f status])%list)
            statuses containerIDs =
  (containerIDs ++ map f statuses)%list.
Proof.
  induction statuses as [|st l IH]; intros acc; simpl.
  - now rewrite app_nil_r.
  - now rewrite IH, <- app_assoc.
Qed.

Lemma podContainerIDs_eq nodeFlag items :
  podContainerIDs nodeFlag items = flat_map (idsOfPod nodeFlag) items.
Proof.
  unfold podContainerIDs.
  enough (H : forall acc,
    fold_left
      (fun containerIDs pod =>
         if String.eqb (NodeName pod) nodeFlag then
           fold_left
             (fun containerIDs status =>
                (containerIDs ++ [strings.TrimPrefix (ContainerID status) "docker://"])%list)
             (ContainerStatuses pod) containerIDs
         else containerIDs)
      items acc = (acc ++ flat_map (idsOfPod nodeFlag) items)%list)
    by apply (H []).
  induction items as [|pod l IH]; intros acc; simpl.
  - now rewrite app_nil_r.
  - rewrite IH. unfold idsOfPod at 2.
    destruct (String.eqb (NodeName pod) nodeFlag).
    + now rewrite status_loop, <- app_assoc.
    + reflexivity.
Qed.

(** X15: with a pod list at hand, [getPodContainers] delivers, pod after
    pod and status after status, one identifier for every container
    status of every pod whose node name is [nodeFlag], and nothing for
    the pods of other nodes. *)
Theorem pod_ids_by_pod (nodeFlag : string) (env : Env) (pl : PodList)
    (err : option string) (s : State) :
  PodsList env = (Some pl, err) ->
  exists K,
    fst (getPodContainers nodeFlag env s) = Ok K /\
    K = flat_map
          (fun pod =>
             if String.eqb (NodeName pod) nodeFlag then
               map (fun status => strings.TrimPrefix (ContainerID status) "docker://")
                   (ContainerStatuses pod)
             else [])
          (Items pl) /\
    length K =
      list_sum (map (fun pod => if String.eqb (NodeName pod) nodeFlag
                                then length (ContainerStatuses pod) else O)
                    (Items pl)).
Proof.
  intros Hpods. rewrite (getPodContainers_eq nodeFlag env s Hpods). simpl.
  eexists. split; [reflexivity|]. rewrite podContainerIDs_eq.
  split; [reflexivity|].
  induction (Items pl) as [|pod l IH]; simpl; [reflexivity|].
  rewrite length_app, IH. f_equal. unfold idsOfPod.
  destruct (String.eqb (NodeName pod) nodeFlag); [apply length_map | reflexivity].
Qed.

Lemma pod_ids_by_pod_witness :
  let mine := {| NodeName := "node-1";
                 ContainerStatuses := [ {| ContainerID := "docker://abc123" |};
                                        {| ContainerID := "docker://def456" |} ] |} in
  let other := {| NodeName := "node-2";
                  ContainerStatuses := [ {| ContainerID := "docker://999999" |} ] |} in
  let env := {| NewEnvClient := (None, None);
                PodsList := (Some {| Items := [other; mine] |}, None) |} in
  fst (getPodContainers "node-1" env idle) = Ok ["abc123"; "def456"].
Proof.
  intros mine other env.
  destruct (@pod_ids_by_pod "node-1" env {| Items := [other; mine] |} None idle eq_refl)
    as (K & E & HK & _).
  rewrite E, HK. reflexivity.
Defined.

(** X16: an identifier is delivered by [getPodContainers] exactly when a
    pod of this node has a container status that is the identifier
    behind the prefix "docker://", or is the identifier itself and does
    not start with that prefix. *)
Theorem pod_id_iff (nodeFlag : string) (env : Env) (pl : PodList)
    (err : option string) (s : State) (id : string) :
  PodsList env = (Some pl, err) ->
  exists K,
    fst (getPodContainers nodeFlag env s) = Ok K /\
    (In id K <->
     exists pod status,
       In pod (Items pl) /\ NodeName pod = nodeFlag /\
       In status (ContainerStatuses pod) /\
       (ContainerID status = "docker://" ++ id \/
        (strings.HasPrefix (ContainerID status) "docker://" = false /\
         ContainerID status = id))).
Proof.
  intros Hpods. rewrite (getPodContainers_eq nodeFlag env s Hpods). simpl.
  eexists. split; [reflexivity|]. rewrite podContainerIDs_eq, in_flat_map.
  split.
  - intros (pod & Hpod & Hid). unfold idsOfPod in Hid.
    destruct (String.eqb_spec (NodeName pod) nodeFlag) as [Hnode|Hnode]; [|destruct Hid].
    apply in_map_iff in Hid. destruct Hid as (status & Htrim & Hstatus).
    exists pod, status. repeat split; trivial.
    exact (proj1 (TrimPrefix_cases (ContainerID status) "docker://" id) Htrim).
  - intros (pod & status & Hpod & Hnode & Hstatus & Hid).
    exists pod. split; [exact Hpod|]. unfold idsOfPod.
    apply String.eqb_eq in Hnode. rewrite Hnode.
    apply in_map_iff. exists status. split; [|exact Hstatus].
    exact (proj2 (TrimPrefix_cases (ContainerID status) "docker://" id) Hid).
Qed.

Lemma pod_id_iff_witness :
  let mine := {| NodeName := "node-1";
                 ContainerStatuses := [ {| ContainerID := "docker://abc123" |};
                                        {| ContainerID := "containerd://def456" |} ] |} in
  let env := {| NewEnvClient := (None, None);
                PodsList := (Some {| Items := [mine] |}, None) |} in
  exists K,
    fst (getPodContainers "node-1" env idle) = Ok K /\
    In "abc123" K /\ In "containerd://def456" K.
Proof.
  intros mine env.
  destruct (@pod_id_iff "node-1" env {| Items := [mine] |} None idle
              "abc123" eq_refl) as (K & E & H).
  exists K. split; [exact E|]. split.
  - apply H. exists mine, {| ContainerID := "docker://abc123" |}.
    simpl. repeat split; auto.
  - vm_compute in E. injection E as <-. simpl. auto.
Defined.

(** X17: a container whose identifier stands, behind "docker://", in a
    container status of a pod of this node is in the delivered
    identifier list, and no comparison against that list returns it as
    an orphan. *)
Theorem pod_status_protects (nodeFlag : string) (env : Env) (pl : PodList)
    (err : option string) (pod : Pod) (status : ContainerStatus)
    (c : Container) (s : State) :
  PodsList env = (Some pl, err) ->
  In pod (Items pl) ->
  NodeName pod = nodeFlag ->
  In status (ContainerStatuses pod) ->
  ContainerID status = "docker://" ++ ID c ->
  exists K,
    fst (getPodContainers nodeFlag env s) = Ok K /\
    In (ID c) K /\
    forall R s', exists orphans,
      fst (compareContainerGroups R K s') = Ok orphans /\ ~ In c orphans.
Proof.
  intros Hpods Hpod Hnode Hstatus Hid.
  rewrite (getPodContainers_eq nodeFlag env s Hpods). simpl.
  eexists. split; [reflexivity|].
  assert (Hin : In (ID c) (podContainerIDs nodeFlag (Items pl))).
  { rewrite podContainerIDs_eq, in_flat_map. exists pod. split; [exact Hpod|].
    unfold idsOfPod. apply String.eqb_eq in Hnode. rewrite Hnode.
    apply in_map_iff. exists status. split; [|exact Hstatus].
    rewrite Hid. apply TrimPrefix_app. }
  split; [exact Hin|].
  intros R s'. rewrite compare_eq. eexists. split; [reflexivity|].
  rewrite filter_In. intros [_ H]. apply isOrphan_spec in H. apply H.
  exists (ID c). split; [exact Hin | apply is_substring_refl].
Qed.

Lemma pod_status_protects_witness :
  let c := {| ID := "abc123"; Image := "nginx"; ImageID := "sha256:1"; Created := 5 |} in
  let status := {| ContainerID := "docker://abc123" |} in
  let mine := {| NodeName := "node-1"; ContainerStatuses := [status] |} in
  let env := {| NewEnvClient := (None, None);
                PodsList := (Some {| Items := [mine] |}, None) |} in
  exists K,
    fst (getPodContainers "node-1" env idle) = Ok K /\
    exists orphans,
      fst (compareContainerGroups [c] K idle) = Ok orphans /\ ~ In c orphans.
Proof.
  intros c status mine env.
  destruct (@pod_status_protects "node-1" env {| Items := [mine] |} None mine status
              c idle eq_refl (or_introl eq_refl) eq_refl (or_introl eq_refl) eq_refl)
    as (K & E & _ & H).
  exists K. split; [exact E | exact (H [c] idle)].
Defined.

(** X18: when no pod of the list is scheduled on [nodeFlag], the
    identifier list is empty, and every inventory compared against it
    comes back whole as orphans. *)
Theorem no_pod_on_node (nodeFlag : string) (env : Env) (pl : PodList)
    (err : option string) (s : State) :
  PodsList env = (Some pl, err) ->
  (forall pod, In pod (Items pl) -> NodeName pod <> nodeFlag) ->
  fst (getPodContainers nodeFlag env s) = Ok [] /\
  forall R s', exists K,
    fst (getPodContainers nodeFlag env s) = Ok K /\
    fst (compareContainerGroups R K s') = Ok R.
Proof.
  intros Hpods Hnone.
  assert (E : podContainerIDs nodeFlag (Items pl) = []).
  { rewrite podContainerIDs_eq.
    induction (Items pl) as [|pod l IH]; simpl; [reflexivity|].
    rewrite IH by (intros p Hp; apply Hnone; now right).
    unfold idsOfPod.
    destruct (String.eqb_spec (NodeName pod) nodeFlag) as [Hn|Hn]; [|reflexivity].
    exfalso. apply (Hnone pod); [now left | exact Hn]. }
  rewrite (getPodContainers_eq nodeFlag env s Hpods), E. simpl.
  split; [reflexivity|].
  intros R s'. exists []. split; [reflexivity|].
  rewrite compare_eq. simpl. now rewrite (filter_all _ _ isOrphan_nil).
Qed.

Lemma no_pod_on_node_witness :
  let c := {| ID := "abc123"; Image := "nginx"; ImageID := "sha256:1"; Created := 5 |} in
  let other := {| NodeName := "node-2";
                  ContainerStatuses := [ {| ContainerID := "docker://abc123" |} ] |} in
  let env := {| NewEnvClient := (None, None);
                PodsList := (Some {| Items := [other] |}, None) |} in
  fst (getPodContainers "node-1" env idle) = Ok [] /\
  exists K,
    fst (getPodContainers "node-1" env idle) = Ok K /\
    fst (compareContainerGroups [c] K idle) = Ok [c].
Proof.
  intros c other env.
  destruct (@no_pod_on_node "node-1" env {| Items := [other] |} None idle eq_refl)
    as [E H].
  - intros pod [<-|[]]. discriminate.
  - split; [exact E | exact (H [c] idle)].
Defined.

(** ** More on a whole pass *)

(** A pass up to the dispatch, with both clients at hand. *)
Lemma executeCheck_prefix config nodeFlag modeFlag env pl perr cli err
    containers err' s :
  PodsList env = (Some pl, perr) ->
  NewEnvClient env = (Some cli, err) ->
  ContainerList cli (runtime s) = (containers, err') ->
  let orphans := passOrphans config nodeFlag pl containers in
  executeCheck config nodeFlag modeFlag env s =
  (if (0 <? length orphans)%nat
   then removeOrReportOrphanContainers config modeFlag env orphans
   else Println [Str "No orphaned containers found."])
    {| runtime := runtime s;
       trace := (trace s ++ fetchLog perr err err' ++ map orphanLog orphans)%list |}.
Proof.
  intros Hpods Hcli Hlist orphans. unfold executeCheck.
  rewrite (bind_ok _ (fetchBoth_eq config nodeFlag env s Hpods Hcli Hlist)).
  rewrite (bind_ok _ (compare_eq _ _ _)). simpl.
  fold (kept config containers). fold (passOrphans config nodeFlag pl containers).
  fold orphans. unfold fetchLog. now rewrite <- !app_assoc.
Qed.

Lemma length_zero_nil {A} (l : list A) : (0 <? length l)%nat = false -> l = [].
Proof. destruct l; [reflexivity | discriminate]. Qed.





Lemma stops_orphanLog l : stops (map orphanLog l) = [].
Proof. induction l as [|c l IH]; simpl; auto. Qed.

Lemma sent_orphanLog l : sent (map orphanLog l) = [].
Proof. induction l as [|c l IH]; simpl; auto. Qed.

(** X21: a pass in remove mode with both clients at hand stops, once
    each and in the daemon's order, exactly the listed containers that
    are neither whitelisted nor matched by the pods of this node, each
    with [StopTimeout] seconds, and sends one "stopped" message for each;
    no whitelisted and no matched container is the subject of a stop. *)
Theorem pass_remove_stops (config : Config) (nodeFlag : string) (env : Env)
    (pl : PodList) (perr : option string) (cli : Client) (err err' : option string)
    (containers : list Container) (s : State) :
  PodsList env = (Some pl, perr) ->
  NewEnvClient env = (Some cli, err) ->
  ContainerList cli (runtime s) = (containers, err') ->
  uint32 (StopTimeout (Config_Timing config)) ->
  let orphans := passOrphans config nodeFlag pl containers in
  let timeout := (StopTimeout (Config_Timing config) * 1000000000)%Z in
  exists t s',
    executeCheck config nodeFlag "remove" env s = (Ok tt, s') /\
    trace s' = (trace s ++ t)%list /\
    runtime s' = stopAll cli timeout orphans (runtime s) /\
    stops t = map (fun c => (ID c, timeout)) orphans /\
    sent t = map (fun c => "Dangling container stopped: " ++ ID c
                             ++ " (" ++ ImageID c ++ ")") orphans /\
    forall id d, In (id, d) (stops t) ->
      exists c, In c containers /\ ID c = id /\
                whitelisted config c = false /\
                stringInSlice (ID c) (podContainerIDs nodeFlag (Items pl)) = false.
Proof.
  intros Hpods Hcli Hlist Hrange orphans timeout.
  assert (Hstops : forall t0,
            stops (fetchLog perr err err' ++ map orphanLog orphans ++ t0)%list = stops t0).
  { intros t0. unfold fetchLog.
    now rewrite !stops_app, !stops_errLog, stops_orphanLog. }
  assert (Hsent : forall t0,
            sent (fetchLog perr err err' ++ map orphanLog orphans ++ t0)%list = sent t0).
  { intros t0. unfold fetchLog.
    now rewrite !sent_app, !sent_errLog, sent_orphanLog. }
  assert (Hsubject : forall id d,
            In (id, d) (map (fun c => (ID c, timeout)) orphans) ->
            exists c, In c containers /\ ID c = id /\
                      whitelisted config c = false /\
                      stringInSlice (ID c) (podContainerIDs nodeFlag (Items pl)) = false).
  { intros id d Hin. apply in_map_iff in Hin. destruct Hin as (c & Hc & Hin).
    inversion Hc; subst. unfold orphans, passOrphans, kept in Hin.
    rewrite !filter_In in Hin. destruct Hin as [[Hin Hw] Ho].
    exists c. unfold isOrphan in Ho.
    repeat split; trivial; now apply negb_true_iff. }
  rewrite (executeCheck_prefix config nodeFlag "remove" env s Hpods Hcli Hlist).
  fold orphans. destruct (0 <? length orphans)%nat eqn:Hlen.
  - rewrite (dispatch_remove config env orphans _ Hcli). simpl.
    unfold stopTimeoutOf. rewrite (seconds_exact Hrange). fold timeout.
    eexists _, _. split; [reflexivity|]. simpl.
    split; [rewrite <- !app_assoc; reflexivity|].
    split; [reflexivity|].
    rewrite Hstops, Hsent, stops_app, sent_app, stops_errLog, sent_errLog.
    simpl. rewrite stops_stop, sent_stop. repeat split. exact Hsubject.
  - apply length_zero_nil in Hlen. rewrite Hlen in *.
    eexists _, _. split; [reflexivity|]. simpl.
    split; [rewrite <- !app_assoc; reflexivity|].
    split; [reflexivity|].
    simpl in Hstops, Hsent. rewrite Hstops, Hsent. simpl.
    repeat split. intros id d [].
Qed.

Lemma pass_remove_stops_witness :
  let web := {| ID := "abc123"; Image := "nginx"; ImageID := "sha256:1"; Created := 5 |} in
  let pause := {| ID := "def456"; Image := "gcr.io/google_containers/pause-amd64";
                  ImageID := "sha256:2"; Created := 6 |} in
  let stray := {| ID := "777777"; Image := "redis"; ImageID := "sha256:3"; Created := 7 |} in
  let mine := {| NodeName := "node-1";
                 ContainerStatuses := [ {| ContainerID := "docker://abc123" |} ] |} in
  let config := {| Config_Timing := {| CheckInterval := 90; StopTimeout := 30 |};
                   Config_Whitelist := {| Images := ["pause-amd64"] |} |} in
  let env := {| NewEnvClient := (Some obligingClient, None);
                PodsList := (Some {| Items := [mine] |}, None) |} in
  exists t s',
    executeCheck config "node-1" "remove" env
      {| runtime := [web; pause; stray]; trace := [] |} = (Ok tt, s') /\
    runtime s' = [web; pause] /\
    stops t = [("777777", 30000000000%Z)] /\
    sent t = ["Dangling container stopped: 777777 (sha256:3)"].
Proof.
  intros web pause stray mine config env.
  destruct (@pass_remove_stops config "node-1" env {| Items := [mine] |} None
              obligingClient None None [web; pause; stray]
              {| runtime := [web; pause; stray]; trace := [] |}
              eq_refl eq_refl eq_refl)
    as (t & s' & E & _ & Hr & Hs & Hm & _).
  - unfold uint32; simpl; lia.
  - exists t, s'. repeat split; assumption.
Defined.

(** X22: a pass in any mode other than "remove", with both clients at
    hand, leaves the daemon as it was and sends one "found" message for
    each listed container that is neither whitelisted nor matched, in
    the daemon's order; the notifier publishes as many events. *)
Theorem pass_report_sends (config : Config) (nodeFlag modeFlag : string) (env : Env)
    (pl : PodList) (perr : option string) (cli : Client) (err err' : option string)
    (containers : list Container) (s : State) :
  PodsList env = (Some pl, perr) ->
  NewEnvClient env = (Some cli, err) ->
  ContainerList cli (runtime s) = (containers, err') ->
  modeFlag <> "remove" ->
  let orphans := passOrphans config nodeFlag pl containers in
  exists t,
    executeCheck config nodeFlag modeFlag env s =
      (Ok tt, {| runtime := runtime s; trace := (trace s ++ t)%list |}) /\
    stops t = [] /\
    sent t = map (fun c => "Dangling container found: " ++ ID c
                             ++ " (" ++ ImageID c ++ ")") orphans /\
    length (notifier nodeFlag t) = length orphans.
Proof.
  intros Hpods Hcli Hlist Hmode orphans.
  assert (Hstops : forall t0,
            stops (fetchLog perr err err' ++ map orphanLog orphans ++ t0)%list = stops t0).
  { intros t0. unfold fetchLog.
    now rewrite !stops_app, !stops_errLog, stops_orphanLog. }
  assert (Hsent : forall t0,
            sent (fetchLog perr err err' ++ map orphanLog orphans ++ t0)%list = sent t0).
  { intros t0. unfold fetchLog.
    now rewrite !sent_app, !sent_errLog, sent_orphanLog. }
  rewrite (executeCheck_prefix config nodeFlag modeFlag env s Hpods Hcli Hlist).
  fold orphans. destruct (0 <? length orphans)%nat eqn:Hlen.
  - rewrite (dispatch_report config env orphans _ Hmode). simpl.
    eexists. split; [rewrite <- !app_assoc; reflexivity|].
    unfold notifier.
    rewrite Hstops, Hsent, stops_app, sent_app, stops_errLog, sent_errLog.
    simpl. rewrite stops_observe, sent_observe, !length_map. now repeat split.
  - apply length_zero_nil in Hlen. rewrite Hlen in *. simpl.
    unfold Println, emit. simpl.
    eexists. split; [rewrite <- !app_assoc; reflexivity|].
    unfold notifier. simpl in Hstops, Hsent. rewrite Hstops, Hsent. simpl.
    now repeat split.
Qed.

Lemma pass_report_sends_witness :
  let web := {| ID := "abc123"; Image := "nginx"; ImageID := "sha256:1"; Created := 5 |} in
  let stray := {| ID := "777777"; Image := "redis"; ImageID := "sha256:3"; Created := 7 |} in
  let mine := {| NodeName := "node-1";
                 ContainerStatuses := [ {| ContainerID := "docker://abc123" |} ] |} in
  let env := {| NewEnvClient := (Some obligingClient, None);
                PodsList := (Some {| Items := [mine] |}, None) |} in
  exists t,
    executeCheck config_default "node-1" "watch" env
      {| runtime := [web; stray]; trace := [] |} =
      (Ok tt, {| runtime := [web; stray]; trace := t |}) /\
    sent t = ["Dangling container found: 777777 (sha256:3)"].
Proof.
  intros web stray mine env.
  destruct (@pass_report_sends config_default "node-1" "watch" env
              {| Items := [mine] |} None obligingClient None None [web; stray]
              {| runtime := [web; stray]; trace := [] |} eq_refl eq_refl eq_refl)
    as (t & E & _ & Hs & _).
  - discriminate.
  - exists t. split; assumption.
Defined.

(** ** The loop of [main] and the mode *)

Lemma emits_only_main allowed config nodeFlag modeFlag passes :
  (forall ops, allowed (ELog ops) = true) ->
  (forall msg, allowed (EChanSend msg) = true) ->
  (forall d, allowed (ESleep d) = true) ->
  (modeFlag = "remove" -> forall id d, allowed (EContainerStop id d) = true) ->
  forall envs, emits_only allowed (main config nodeFlag modeFlag envs passes).
Proof.
  intros Hlog Hsend Hsleep Hstop.
  induction passes as [|n IH]; intros envs; simpl.
  - apply emits_only_ret.
  - apply emits_only_bind; [now apply emits_only_executeCheck|]. intros _.
    apply emits_only_bind; [apply emits_only_emit, Hsleep|]. intros _.
    apply IH.
Qed.

Lemma keeps_runtime_main config nodeFlag modeFlag passes :
  modeFlag <> "remove" ->
  forall envs, keeps_runtime (main config nodeFlag modeFlag envs passes).
Proof.
  intros Hmode. induction passes as [|n IH]; intros envs; simpl.
  - apply keeps_runtime_ret.
  - apply keeps_runtime_bind; [now apply keeps_runtime_executeCheck|]. intros _.
    apply keeps_runtime_bind; [apply keeps_runtime_emit|]. intros _.
    apply IH.
Qed.

(** X23: [init] leaves "remove" in [modeFlag] in two cases only: the
    command line says [-mode remove], or it has no [-mode] argument and
    the environment variable MODE is "remove"; an empty or unset MODE
    without argument gives "watch". *)
Theorem init_mode_remove_iff (Getenv : string -> string) (arg : option string) :
  (init_modeFlag Getenv arg = "remove" <->
   arg = Some "remove" \/ (arg = None /\ Getenv "MODE" = "remove")) /\
  (arg = None -> Getenv "MODE" = "" -> init_modeFlag Getenv arg = "watch").
Proof.
  unfold init_modeFlag. split.
  - destruct arg as [value|].
    + split; [intros ->; now left | intros [H|[H _]]; congruence].
    + destruct (String.eqb_spec (Getenv "MODE") "") as [E|E]; simpl.
      * split; [discriminate | intros [H|[_ H]]; congruence].
      * split; [intros H; now right | intros [H|[_ H]]; congruence].
  - intros -> E. now rewrite E.
Qed.

Lemma init_mode_remove_iff_witness :
  init_modeFlag (fun _ => "") None = "watch".
Proof.
  exact (proj2 (init_mode_remove_iff (fun _ => "") None) eq_refl eq_refl).
Defined.

(** X24: unless [init] left "remove" in [modeFlag], no number of passes
    of [main] makes a stop call or changes the daemon, whatever the
    outside world answers in each pass (failures and nil pointers
    included). *)
Theorem main_never_stops_outside_remove (config : Config) (nodeFlag : string)
    (Getenv : string -> string) (arg : option string)
    (envs : nat -> Env) (passes : nat) (s : State) :
  init_modeFlag Getenv arg <> "remove" ->
  let final := snd (main config nodeFlag (init_modeFlag Getenv arg) envs passes s) in
  runtime final = runtime s /\
  exists t, trace final = (trace s ++ t)%list /\ stops t = [].
Proof.
  intros Hmode final. split.
  - apply keeps_runtime_main. exact Hmode.
  - destruct (@emits_only_main notStop config nodeFlag
                (init_modeFlag Getenv arg) passes) with (envs := envs) (s := s)
      as (t & E & H); try reflexivity.
    + intros Hremove. contradiction.
    + exists t. split; [exact E | now apply stops_of_notStop].
Qed.

Lemma main_never_stops_outside_remove_witness :
  let c := {| ID := "abc123"; Image := "nginx"; ImageID := "sha256:1"; Created := 5 |} in
  let env := {| NewEnvClient := (Some obligingClient, None);
                PodsList := (Some {| Items := [] |}, None) |} in
  let s := {| runtime := [c]; trace := [] |} in
  let final := snd (main config_default "node-1" (init_modeFlag (fun _ => "") None)
                         (fun _ => env) 3 s) in
  runtime final = [c] /\ exists t, trace final = t /\ stops t = [].
Proof.
  intros c env s.
  apply (@main_never_stops_outside_remove config_default "node-1" (fun _ => "") None
           (fun _ => env) 3 s).
  discriminate.
Defined.

(** X25: when each pass finds a pod list and a runtime client, [main]
    completes every pass and sleeps [CheckInterval] seconds after each:
    [passes] iterations leave exactly [passes] sleeps of that length in
    the trace, in either mode. *)
Theorem main_sleeps (config : Config) (nodeFlag modeFlag : string)
    (envs : nat -> Env) (passes : nat) (s : State) :
  (forall i, exists pl perr cli err,
      PodsList (envs i) = (Some pl, perr) /\ NewEnvClient (envs i) = (Some cli, err)) ->
  uint32 (CheckInterval (Config_Timing config)) ->
  exists t s',
    main config nodeFlag modeFlag envs passes s = (Ok tt, s') /\
    trace s' = (trace s ++ t)%list /\
    sleeps t = repeat (CheckInterval (Config_Timing config) * 1000000000)%Z passes.
Proof.
  intros Henvs Hrange. revert envs Henvs s.
  induction passes as [|n IH]; intros envs Henvs s.
  - exists [], s. simpl. now rewrite app_nil_r.
  - destruct (Henvs O) as (pl & perr & cli & err & Hpods & Hcli).
    destruct (ContainerList cli (runtime s)) as [containers err'] eqn:Hlist.
    destruct (executeCheck_completes config nodeFlag modeFlag (envs O) s
                Hpods Hcli Hlist) as [s1 Hpass].
    destruct (@emits_only_executeCheck notSleep config nodeFlag modeFlag (envs O))
      with (s := s) as (t1 & E1 & H1); try reflexivity.
    rewrite Hpass in E1. simpl in E1.
    rewrite (@main_step config nodeFlag modeFlag envs n s s1 Hpass).
    rewrite (seconds_exact Hrange).
    destruct (IH (fun i => envs (S i)) (fun i => Henvs (S i))
                {| runtime := runtime s1;
                   trace := (trace s1 ++
                             [ESleep (CheckInterval (Config_Timing config)
                                        * 1000000000)%Z])%list |})
      as (t2 & s2 & Hmain & E2 & H2).
    exists (t1 ++ ESleep (CheckInterval (Config_Timing config) * 1000000000)%Z :: t2)%list,
           s2.
    split; [exact Hmain|]. split.
    + rewrite E2. simpl. rewrite E1, <- !app_assoc. reflexivity.
    + rewrite sleeps_app, (sleeps_of_notSleep _ H1). simpl. now rewrite H2.
Qed.

Lemma main_sleeps_witness :
  let env := {| NewEnvClient := (Some obligingClient, None);
                PodsList := (Some {| Items := [] |}, None) |} in
  exists t s',
    main config_default "node-1" "remove" (fun _ => env) 2 idle = (Ok tt, s') /\
    trace s' = t /\
    sleeps t = [90000000000%Z; 90000000000%Z].
Proof.
  intros env.
  apply (@main_sleeps config_default "node-1" "remove" (fun _ => env) 2 idle).
  - intros i. exists {| Items := [] |}, None, obligingClient, None. now split.
  - unfold uint32; simpl; lia.
Defined.






